(** * multi_to_multi_fast5: repackaging of multi-read containers

    A shallow embedding of
    [ont_fast5_api/conversion_tools/multi_to_multi_fast5.py]:
    the binning-table parser [parse_csv], the label-binning routine
    [multi_to_adapter_multi], the fixed-size batching routine
    [repackage_multi_to_multi] and the dispatch in [main].

    Python exceptions are modelled by a state-and-error monad; the
    filesystem of containers, the table of open handles and the error log
    are the state that the code mutates.  The progress bar, the final
    [print()] and the making of directories leave no trace in that state
    and are not modelled. *)

From Stdlib Require Import ZArith Ascii String List.
From stdpp Require Import base tactics option list gmap strings pretty.

Local Open Scope string_scope.
Local Open Scope Z_scope.

(** ** Text helpers: the pieces of [str] and [os.path] that the code calls *)

Module Text.

(** The characters below code point 256 for which [str.isspace] holds;
    these are what [str.strip()] removes at both ends. *)
Definition isspace (c : ascii) : bool :=
  let n := nat_of_ascii c in
  (((9 <=? n) && (n <=? 13)) || ((28 <=? n) && (n <=? 32))
   || (n =? 133) || (n =? 160))%nat.

Definition tab : ascii := "009"%char.
Definition newline : ascii := "010"%char.
Definition slash : ascii := "/"%char.

Fixpoint lstrip (s : string) : string :=
  match s with
  | EmptyString => EmptyString
  | String c r => if isspace c then lstrip r else s
  end.

Fixpoint rstrip (s : string) : string :=
  match s with
  | EmptyString => EmptyString
  | String c r =>
      match rstrip r with
      | EmptyString => if isspace c then EmptyString else String c EmptyString
      | r' => String c r'
      end
  end.

(** [s.strip()] *)
Definition strip (s : string) : string := rstrip (lstrip s).

(** [s.split(sep)] for a one-character separator: every occurrence of
    the separator ends a field, so the result is never empty. *)
Fixpoint split (sep : ascii) (s : string) : list string :=
  match s with
  | EmptyString => [EmptyString]
  | String c r =>
      if decide (c = sep) then EmptyString :: split sep r
      else match split sep r with
           | h :: t => String c h :: t
           | [] => [String c EmptyString]
           end
  end.

Definition startswith_slash (s : string) : bool :=
  match s with
  | String c _ => bool_decide (c = slash)
  | EmptyString => false
  end.

Fixpoint endswith_slash (s : string) : bool :=
  match s with
  | EmptyString => false
  | String c EmptyString => bool_decide (c = slash)
  | String _ r => endswith_slash r
  end.

(** One round of the loop of [posixpath.join]. *)
Definition join2 (path b : string) : string :=
  if startswith_slash b then b
  else if bool_decide (path = EmptyString) || endswith_slash path then path +:+ b
  else path +:+ "/" +:+ b.

(** [os.path.join(a, *p)] *)
Definition join (a : string) (p : list string) : string :=
  fold_left join2 p a.

(** [os.path.basename(p)]: what follows the last slash. *)
Fixpoint basename (p : string) : string :=
  match p with
  | EmptyString => EmptyString
  | String c r =>
      if existsb (fun x => bool_decide (x = slash)) (list_ascii_of_string r)
      then basename r
      else if bool_decide (c = slash) then r else p
  end.

(** ["{}_{}.fast5".format(filename_base, batch_num)] *)
Definition batch_name (filename_base : string) (batch_num : Z) : string :=
  filename_base +:+ "_" +:+ pretty batch_num +:+ ".fast5".

End Text.

(** ** Exceptions and the state-and-error monad *)

Inductive exn : Set :=
| IOError            (* a container cannot be opened, or a handle is closed *)
| KeyError           (* a read, group or attribute is missing *)
| ValueError         (* a name already exists; wrong number of fields *)
| UnboundLocalError. (* a local variable is read before it is bound *)

Inductive result (A : Type) : Type :=
| Ok (a : A)
| Raise (e : exn).
Arguments Ok {A} a.
Arguments Raise {A} e.

Definition M (S A : Type) : Type := S -> result A * S.

Definition ret {S A} (a : A) : M S A := fun s => (Ok a, s).
Definition raise {S A} (e : exn) : M S A := fun s => (Raise e, s).
Definition bind {S A B} (m : M S A) (k : A -> M S B) : M S B :=
  fun s => match m s with
           | (Ok a, s') => k a s'
           | (Raise e, s') => (Raise e, s')
           end.
Definition gets {S A} (f : S -> A) : M S A := fun s => (Ok (f s), s).
Definition modify {S} (f : S -> S) : M S unit := fun s => (Ok tt, f s).

(** [try: m except Exception as e: h e] *)
Definition try_except {S A} (m : M S A) (h : exn -> M S A) : M S A :=
  fun s => match m s with
           | (Ok a, s') => (Ok a, s')
           | (Raise e, s') => h e s'
           end.

(** [try: m finally: f]: [f] runs on both exits; an exception of [f]
    replaces the outcome of [m]. *)
Definition try_finally {S A} (m : M S A) (f : M S unit) : M S A :=
  fun s => let '(r, s') := m s in
           match f s' with
           | (Ok _, s'') => (r, s'')
           | (Raise e, s'') => (Raise e, s'')
           end.

Declare Scope py_scope.
Delimit Scope py_scope with py.
Notation "x <- m ;; k" := (bind m (fun x => k))
  (at level 100, m at next level, right associativity) : py_scope.
Notation "m ;; k" := (bind m (fun _ => k))
  (at level 100, right associativity) : py_scope.
Local Open Scope py_scope.

(** [for x in l: body x] *)
Fixpoint for_each {S A} (l : list A) (body : A -> M S unit) : M S unit :=
  match l with
  | [] => ret tt
  | x :: l' => body x ;; for_each l' body
  end.

(** ** Data model: reads, containers, the filesystem, handles, the log *)

Definition blob : Type := list Byte.byte.

(** A read: its [run_id] attribute (absent on a damaged read) and its named
    data groups. *)
Record read : Type := Read {
  run_id : option string;
  groups : gmap string blob
}.

(** What a path holds: a file that is no container (opening it fails), or
    a container mapping read ids to reads. *)
Inductive file : Type :=
| Corrupt
| Container (c : gmap string read).

Inductive mode : Set := ModeR | ModeA.

Definition handle : Type := nat.

(** The calls of [logger.error], by line of the source. *)
Inductive log_entry : Type :=
| FailedAddSingleRead (e : exn) (read_id output_file : string)   (* line 69 *)
| FailedWriteMultiRead (e : exn) (output_file : string)          (* lines 72, 111 *)
| FailedCopyFilesFrom (e : exn) (input_file : string)            (* line 75 *)
| FailedJoinMultiRead (e : exn) (output_file : string).          (* line 116 *)

Record state : Type := State {
  fs : gmap string file;          (* path -> file *)
  handles : gmap handle string;   (* the open handles and their paths *)
  next_handle : handle;
  log : list log_entry            (* oldest entry first *)
}.

Definition init_state (files : gmap string file) : state :=
  State files ∅ 0%nat [].

Definition set_fs (f : gmap string file) (s : state) : state :=
  State f (handles s) (next_handle s) (log s).

Definition logger_error (x : log_entry) : M state unit :=
  modify (fun s => State (fs s) (handles s) (next_handle s) (log s ++ [x])%list).

(** ** The container API *)

(** Modelled from the spec: the class [MultiFast5File] and the reads it
    hands out, which [ont_fast5_api/multi_fast5.py] defines and
    [multi_to_multi_fast5.py] only calls.  The operations follow section 6
    of the specification (open, list read ids, get read, create read, copy
    group, close) and its data model: read ids are unique within a
    container, a container opened in append mode is created when absent, a
    read is a [run_id] attribute and a set of named groups.  A file that is
    no container stands for every reason for which a path cannot be
    opened.  Handles do not lock their files. *)
Module Api.

(** Modelled from the spec: [open(path, mode)], the call
    [MultiFast5File(path, mode)].  Reading needs a container; appending
    makes an empty one where there is no file. *)
Definition open (path : string) (m : mode) : M state handle :=
  fun s =>
    let h := next_handle s in
    let opened f := State f (<[h := path]> (handles s)) (S h) (log s) in
    match fs s !! path, m with
    | Some (Container _), _ => (Ok h, opened (fs s))
    | Some Corrupt, _ => (Raise IOError, s)
    | None, ModeR => (Raise IOError, s)
    | None, ModeA => (Ok h, opened (<[path := Container ∅]> (fs s)))
    end.

(** Modelled from the spec: [close(handle)], the call [f5.close()];
    closing a closed handle does nothing. *)
Definition close (h : handle) : M state unit :=
  modify (fun s => State (fs s) (delete h (handles s)) (next_handle s) (log s)).

(** Modelled from the spec: the path behind an open handle; a closed
    handle cannot be used. *)
Definition path_of (h : handle) : M state string :=
  fun s => match handles s !! h with
           | Some p => (Ok p, s)
           | None => (Raise IOError, s)
           end.

(** Modelled from the spec: the container stored at a path. *)
Definition container_at (p : string) : M state (gmap string read) :=
  fun s => match fs s !! p with
           | Some (Container c) => (Ok c, s)
           | _ => (Raise IOError, s)
           end.

(** Modelled from the spec: the container behind an open handle. *)
Definition container_of (h : handle) : M state (gmap string read) :=
  p <- path_of h ;; container_at p.

(** Modelled from the spec: [listReadIds(handle)], the call
    [f5.get_read_ids()], in the listing order of the container. *)
Definition get_read_ids (h : handle) : M state (list string) :=
  c <- container_of h ;; ret (map fst (map_to_list c)).

(** Modelled from the spec: [getRead(handle, id)], the call
    [f5.get_read(read_id)]; the returned object designates the read
    [read_id] of the file behind [h]. *)
Definition get_read (h : handle) (read_id : string) : M state (handle * string) :=
  c <- container_of h ;;
  match c !! read_id with
  | Some _ => ret (h, read_id)
  | None => raise KeyError
  end.

(** Modelled from the spec: the [runId] of [getRead], read by
    [f5.handle["read_" + read_id].attrs["run_id"]]. *)
Definition attrs_run_id (h : handle) (read_id : string) : M state string :=
  c <- container_of h ;;
  match c !! read_id with
  | Some (Read (Some r) _) => ret r
  | _ => raise KeyError
  end.

(** Modelled from the spec: [createRead(handle, id, runId)], the call
    [f5.create_read(read_id, run_id)]: a new read without groups; read ids
    are unique within a container, so an id that exists is refused. *)
Definition create_read (h : handle) (read_id run : string) : M state (handle * string) :=
  p <- path_of h ;;
  c <- container_at p ;;
  match c !! read_id with
  | Some _ => raise ValueError
  | None =>
      modify (fun s => set_fs (<[p := Container (<[read_id := Read (Some run) ∅]> c)]> (fs s)) s) ;;
      ret (h, read_id)
  end.

(** Modelled from the spec: the [groups] of [getRead], the names listed
    by [for group in read.handle]. *)
Definition group_names (rd : handle * string) : M state (list string) :=
  c <- container_of (fst rd) ;;
  match c !! snd rd with
  | Some r => ret (map fst (map_to_list (groups r)))
  | None => raise KeyError
  end.

(** Modelled from the spec: [copyGroup(destHandle, group)], the call
    [dst.handle.copy(src.handle[group], group)]: the group is copied
    verbatim under its name, which must be free in the destination. *)
Definition copy (dst src : handle * string) (group : string) : M state unit :=
  c <- container_of (fst src) ;;
  match c !! snd src ≫= (fun r => groups r !! group) with
  | None => raise KeyError
  | Some b =>
      p <- path_of (fst dst) ;;
      d <- container_at p ;;
      match d !! snd dst with
      | None => raise KeyError
      | Some r =>
          match groups r !! group with
          | Some _ => raise ValueError
          | None =>
              modify (fun s => set_fs
                (<[p := Container (<[snd dst := Read (run_id r) (<[group := b]> (groups r))]> d)]> (fs s)) s)
          end
      end
  end.

(** Modelled from the spec: the scoped use of a container,
    [with MultiFast5File(path, mode) as f5: body f5]: the handle is closed
    on both exits of the block. *)
Definition with_open {A} (path : string) (m : mode) (body : handle -> M state A) : M state A :=
  h <- open path m ;;
  try_finally (body h) (close h).

End Api.

(** ** The per-read copy

    Lines 62-67 of [multi_to_adapter_multi] and lines 104-109 of
    [repackage_multi_to_multi] are the same six statements, on
    [binned_multi_f5] and on [output_multi_f5]. *)
Definition copy_read (multi_f5 : handle) (read_id : string) (out_f5 : handle) : M state unit :=
  rd <- Api.get_read multi_f5 read_id ;;
  run <- Api.attrs_run_id multi_f5 read_id ;;
  out_read <- Api.create_read out_f5 read_id run ;;
  names <- Api.group_names rd ;;
  for_each names (fun group => Api.copy out_read rd group).

(** ** [parse_csv] (lines 123-129) *)

(** [read_id, grp = line.strip().split("\t")]: unpacking anything but two
    fields raises [ValueError]. *)
Definition parse_line (line : string) : result (string * string) :=
  match Text.split Text.tab (Text.strip line) with
  | [read_id; grp] => Ok (read_id, grp)
  | _ => Raise ValueError
  end.

(** The loop over [f.readlines()], from the dictionary built so far. *)
Fixpoint parse_lines (binning : gmap string string) (lines : list string)
  : result (gmap string string) :=
  match lines with
  | [] => Ok binning
  | line :: rest =>
      match parse_line line with
      | Ok (read_id, grp) => parse_lines (<[read_id := grp]> binning) rest
      | Raise e => Raise e
      end
  end.

(** [parse_csv], on the lines that [f.readlines()] returns for [csv_fp]. *)
Definition parse_csv (lines : list string) : result (gmap string string) :=
  parse_lines ∅ lines.

(** ** [multi_to_adapter_multi] (lines 42-77) *)

Module Binning.

(** Lines 48-52: one round of the grouping loop.  [binned] keeps the
    labels in the order of their first read, as a [dict] does. *)
Fixpoint binned_append (binned : list (string * list string)) (grp read_id : string)
  : list (string * list string) :=
  match binned with
  | [] => [(grp, [read_id])]
  | (g, ids) :: rest =>
      if decide (g = grp) then (g, (ids ++ [read_id])%list) :: rest
      else (g, ids) :: binned_append rest grp read_id
  end.

Definition bin_step (binning : gmap string string)
    (binned : list (string * list string)) (read_id : string) :=
  match binning !! read_id with
  | Some grp => binned_append binned grp read_id
  | None => binned
  end.

(** Lines 46-52 *)
Definition bin_reads (binning : gmap string string) (read_ids : list string)
  : list (string * list string) :=
  fold_left (bin_step binning) read_ids [].

(** Line 55 *)
Definition output_path (output_folder grp input_file : string) : string :=
  Text.join output_folder [grp; Text.basename input_file].

(** Lines 60-70: one read of one label. *)
Definition read_step (multi_f5 binned_multi_f5 : handle) (output_file read_id : string)
  : M state unit :=
  present <- Api.get_read_ids binned_multi_f5 ;;
  if bool_decide (read_id ∈ present) then ret tt
  else try_except (copy_read multi_f5 read_id binned_multi_f5)
         (fun e => logger_error (FailedAddSingleRead e read_id output_file)).

(** Lines 54-72: one label.  The directory of [output_file] is made when
    missing; directories are not part of the state, and a failure to
    make one is a failure of the block like that of opening the file. *)
Definition group_step (multi_f5 : handle) (input_file output_folder : string)
    (entry : string * list string) : M state unit :=
  let output_file := output_path output_folder (fst entry) input_file in
  try_except
    (Api.with_open output_file ModeA (fun binned_multi_f5 =>
       for_each (snd entry) (read_step multi_f5 binned_multi_f5 output_file)))
    (fun e => logger_error (FailedWriteMultiRead e output_file)).

(** Lines 45-73: the block under the outer [try]; it returns [results]
    after the [append] of line 73. *)
Definition body (input_file output_folder : string) (binning : gmap string string)
    (results : list string) : M state (list string) :=
  Api.with_open input_file ModeR (fun multi_f5 =>
    read_ids <- Api.get_read_ids multi_f5 ;;
    let binned := bin_reads binning read_ids in
    for_each binned (group_step multi_f5 input_file output_folder) ;;
    ret (results ++ [Text.basename input_file])%list).

(** The whole function: [finally: return results] makes it return on
    every path, with [results] as it stands. *)
Definition multi_to_adapter_multi (input_file output_folder : string)
    (binning : gmap string string) : M state (list string) :=
  let results := [Text.basename input_file] in
  try_except (body input_file output_folder binning results)
    (fun e => logger_error (FailedCopyFilesFrom e input_file) ;; ret results).

(** [batch_split_multi_to_adapter_multi] (lines 20-40) with the tasks run
    one after the other in the order of [file_list], which is what a
    pool of one worker (the default of [--threads]) does.  The results
    are collected and not looked at. *)
Definition batch_split_multi_to_adapter_multi (file_list : list string)
    (output_folder : string) (binning : gmap string string) : M state unit :=
  for_each file_list (fun filename =>
    multi_to_adapter_multi filename output_folder binning ;; ret tt).

End Binning.

(** ** [repackage_multi_to_multi] (lines 79-121) *)

Module Batch.

(** The local variables that the loop assigns. *)
Record locals : Type := Locals {
  read_num : Z;
  batch_num : Z;
  output_file : string;
  output_multi_f5 : handle
}.

(** The state of a run of the function: the world and its locals. *)
Record frame : Type := Frame {
  world : state;
  vars : locals
}.

(** A world operation, run inside the function. *)
Definition lift {A} (m : M state A) : M frame A :=
  fun f => let '(r, w) := m (world f) in (r, Frame w (vars f)).

Definition assign (g : locals -> locals) : M frame unit :=
  modify (fun f => Frame (world f) (g (vars f))).

Definition set_read_num (n : Z) (l : locals) : locals :=
  Locals n (batch_num l) (output_file l) (output_multi_f5 l).
Definition set_batch_num (n : Z) (l : locals) : locals :=
  Locals (read_num l) n (output_file l) (output_multi_f5 l).
Definition set_output_file (p : string) (l : locals) : locals :=
  Locals (read_num l) (batch_num l) p (output_multi_f5 l).
Definition set_output_multi_f5 (h : handle) (l : locals) : locals :=
  Locals (read_num l) (batch_num l) (output_file l) h.

(** Lines 90 and 100 *)
Definition output_path (output_folder filename_base : string) (n : Z) : string :=
  Text.join output_folder [Text.batch_name filename_base n].

Section Run.
Variables (output_folder filename_base : string) (batch_size : Z).

(** Lines 98-102 *)
Definition rollover : M frame unit :=
  out <- gets (fun f => output_multi_f5 (vars f)) ;;
  lift (Api.close out) ;;
  n <- gets (fun f => batch_num (vars f)) ;;
  assign (set_batch_num (n + 1)) ;;
  assign (set_output_file (output_path output_folder filename_base (n + 1))) ;;
  path <- gets (fun f => output_file (vars f)) ;;
  h <- lift (Api.open path ModeA) ;;
  assign (set_output_multi_f5 h) ;;
  assign (set_read_num 0).

(** Lines 97-113: one read of one input file. *)
Definition read_step (multi_f5 : handle) (read_id : string) : M frame unit :=
  n <- gets (fun f => read_num (vars f)) ;;
  (if (batch_size <=? n) && (0 <? batch_size) then rollover else ret tt) ;;
  try_except
    (out <- gets (fun f => output_multi_f5 (vars f)) ;;
     lift (copy_read multi_f5 read_id out))
    (fun e =>
       path <- gets (fun f => output_file (vars f)) ;;
       lift (logger_error (FailedWriteMultiRead e path))) ;;
  n' <- gets (fun f => read_num (vars f)) ;;
  assign (set_read_num (n' + 1)).

(** Lines 95-114: one input file.  The handle of the input is closed
    on both exits of the [with] block. *)
Definition file_step (input_file : string) : M frame unit :=
  multi_f5 <- lift (Api.open input_file ModeR) ;;
  try_finally
    (read_ids <- lift (Api.get_read_ids multi_f5) ;;
     for_each read_ids (read_step multi_f5))
    (lift (Api.close multi_f5)).

(** Lines 115-117.  The handler formats its message with [e], which no
    [as e] binds in this clause: [e] is a local of the function (line 110
    binds it and, in Python 3, unbinds it at the end of its clause), so
    reading it raises [UnboundLocalError] before [logger.error] is
    called. *)
Definition join_handler (_ : exn) : M frame unit :=
  raise UnboundLocalError.

(** Lines 93-119 *)
Definition guarded_loop (file_list : list string) : M frame unit :=
  try_finally
    (try_except (for_each file_list file_step) join_handler)
    (out <- gets (fun f => output_multi_f5 (vars f)) ;; lift (Api.close out)).

(** The function, on the list that [get_fast5_file_list] returns. *)
Definition repackage_multi_to_multi (file_list : list string) : M state unit :=
  fun w =>
    let path := output_path output_folder filename_base 0 in
    match Api.open path ModeA w with
    | (Raise e, w') => (Raise e, w')
    | (Ok h, w') =>
        let '(r, f) := guarded_loop file_list (Frame w' (Locals 0 0 path h)) in
        (r, world f)
    end.

End Run.

End Batch.

(** ** [main] (lines 156-160) *)

(** The parsed arguments that the dispatch reads.  The lines of the binning
    file and the list of input files stand for what [open(...).readlines()]
    and [get_fast5_file_list] return; the binning file, when one is named,
    is taken to open. *)
Record args : Type := Args {
  save_path : string;
  binning_csv_file : option (list string);
  filename_base : string;
  batch_size : Z;
  input_files : list string
}.

Definition main (a : args) : M state unit :=
  match binning_csv_file a with
  | Some lines =>
      match parse_csv lines with
      | Raise e => raise e
      | Ok binning =>
          Binning.batch_split_multi_to_adapter_multi (input_files a) (save_path a) binning
      end
  | None =>
      Batch.repackage_multi_to_multi (save_path a) (filename_base a) (batch_size a)
        (input_files a)
  end.

(** ** Readings of the binning file *)

(** A line, read by the code: stripped, then cut at the tabs. *)
Definition fields (line : string) : list string :=
  Text.split Text.tab (Text.strip line).

(** A line, read by the words of the specification: the line "splits into
    exactly two tab-separated fields". *)
Definition spec_two_fields (line : string) : Prop :=
  length (Text.split Text.tab line) = 2%nat.

(** A line of a tab-separated file as [readlines] gives it: the cells, a
    tab between two of them, and the newline. *)
Fixpoint tsv_line (cells : list string) : string :=
  match cells with
  | [] => String Text.newline EmptyString
  | [c] => c +:+ String Text.newline EmptyString
  | c :: rest => c +:+ String Text.tab (tsv_line rest)
  end.

(** ** The batch cursor *)

(** The pair (index of the current output, reads counted in it). *)
Definition cursor (f : Batch.frame) : Z * Z :=
  (Batch.batch_num (Batch.vars f), Batch.read_num (Batch.vars f)).

Definition lex_lt (a b : Z * Z) : Prop :=
  fst a < fst b \/ (fst a = fst b /\ snd a < snd b).

Definition lex_le (a b : Z * Z) : Prop := a = b \/ lex_lt a b.

(** Neither the output index nor the cursor decreases from [f] to [f']. *)
Definition cursor_le (f f' : Batch.frame) : Prop :=
  Batch.batch_num (Batch.vars f) <= Batch.batch_num (Batch.vars f')
  /\ lex_le (cursor f) (cursor f').

(** The container behind a handle, when the handle is open and its file is
    a container. *)
Definition lookup_container (s : state) (h : handle) : option (gmap string read) :=
  match handles s !! h ≫= (fun p => fs s !! p) with
  | Some (Container c) => Some c
  | _ => None
  end.

(** ** Predicates of the proofs *)

(** Every run of [m] relates the state before to the state after, on both
    exits. *)
Definition preserves {S A} (R : relation S) (m : M S A) : Prop :=
  forall s, R s (snd (m s)).

(** An invariant as a relation: what holds before holds after. *)
Definition keeps {S} (P : S -> Prop) : relation S :=
  fun s s' => P s -> P s'.

(** The open handles were all handed out by [Api.open]. *)
Definition handles_wf (s : state) : Prop :=
  forall h p, handles s !! h = Some p -> (h < next_handle s)%nat.

(** The table of handles and the next handle are those of [s]. *)
Definition same_handles (s s' : state) : Prop :=
  handles s' = handles s /\ next_handle s' = next_handle s.

(** Inside a batch run: apart from the handle of the current output, the
    open handles are [H]. *)
Definition batch_handles (H : gmap handle string) (f : Batch.frame) : Prop :=
  handles_wf (Batch.world f)
  /\ (Batch.output_multi_f5 (Batch.vars f) < next_handle (Batch.world f))%nat
  /\ delete (Batch.output_multi_f5 (Batch.vars f)) (handles (Batch.world f)) = H.

(** ** Concrete worlds for the examples *)

Definition raw_signal : blob := [Byte.x01; Byte.x02; Byte.x03].

Definition example_read (run : string) : read :=
  Read (Some run) {[ "Raw" := raw_signal; "channel_id" := [Byte.x2a] ]}.

(** A container of [n] reads named [prefix0], [prefix1], ... *)
Definition example_container (prefix : string) (n : nat) : gmap string read :=
  list_to_map (map (fun i => (prefix +:+ pretty i, example_read "run1")) (seq 0 n)).

(** The number of reads in the container at [path], if there is one. *)
Definition reads_at (files : gmap string file) (path : string) : option nat :=
  match files !! path with
  | Some (Container c) => Some (size c)
  | _ => None
  end.

(** A world in which the input [in/a.fast5] is open as handle 0 and the
    output [out/b.fast5] as handle 1. *)
Definition two_open (src dst : gmap string read) : state :=
  State {[ "in/a.fast5" := Container src; "out/b.fast5" := Container dst ]}
        {[ 0%nat := "in/a.fast5"; 1%nat := "out/b.fast5" ]} 2%nat [].

(** An input of one read, and an output folder in which a container
    already holds that read: [out/batch_0.fast5], the first output of a
    batch-mode run, and [out/A/a.fast5], the output of label [A]. *)
Definition rerun_files : gmap string file :=
  {[ "in/a.fast5" := Container {[ "r1" := example_read "run7" ]};
     "out/batch_0.fast5" := Container {[ "r1" := example_read "run7" ]};
     "out/A/a.fast5" := Container {[ "r1" := example_read "run7" ]} ]}.

(** A relation on worlds, read on the frames of a batch run. *)
Definition on_world (R : relation state) : relation Batch.frame :=
  fun f f' => R (Batch.world f) (Batch.world f').

(** The calls that the two routines make into the world all keep [R]. *)
Definition api_respects (R : relation state) : Prop :=
  (forall path m, preserves R (Api.open path m))
  /\ (forall h, preserves R (Api.close h))
  /\ (forall h, preserves R (Api.get_read_ids h))
  /\ (forall src read_id dst, preserves R (copy_read src read_id dst))
  /\ (forall x, preserves R (logger_error x)).

(** The world only grows: a file that is no container stays one, a
    container keeps its reads as they are, the log keeps its entries. *)
Definition grows (s s' : state) : Prop :=
  (forall p, fs s !! p = Some Corrupt -> fs s' !! p = Some Corrupt)
  /\ (forall p c, fs s !! p = Some (Container c) ->
        exists c', fs s' !! p = Some (Container c') /\ c ⊆ c')
  /\ log s `prefix_of` log s'.



(** The file [x] is a container that holds the read [read_id]. *)
Definition holds_read (read_id : string) (x : file) : bool :=
  match x with
  | Container c => bool_decide (is_Some (c !! read_id))
  | Corrupt => false
  end.

(** The paths of the containers of [files] that hold the read [read_id]. *)
Definition holders (files : gmap string file) (read_id : string) : list string :=
  (map_to_list (filter (fun px => holds_read read_id (snd px) = true) files)).*1.

(** ** Predicates of the binning claims *)

(** The container at [path] holds the read [read_id]. *)
Definition present (files : gmap string file) (path read_id : string) : Prop :=
  exists c, files !! path = Some (Container c) /\ is_Some (c !! read_id).

(** Every read that [s'] holds and [s] did not is one that [P] allows at
    its path. *)
Definition writes_within (P : string -> string -> Prop) (s s' : state) : Prop :=
  forall path read_id,
    present (fs s') path read_id -> present (fs s) path read_id \/ P path read_id.

(** The read is in the container at [path], or the log tells why not: the
    copy of this read failed (line 69), or the block of its destination
    did (line 72). *)
Definition copied_or_logged (s : state) (path read_id : string) : Prop :=
  present (fs s) path read_id
  \/ (exists e, FailedAddSingleRead e read_id path ∈ log s)
  \/ (exists e, FailedWriteMultiRead e path ∈ log s).

(** While the handle [dst] stays open on [path], only what [P] allows is
    written. *)
Definition writes_through (dst : handle) (path : string)
    (P : string -> string -> Prop) (s s' : state) : Prop :=
  handles s !! dst = Some path ->
  handles s' !! dst = Some path /\ writes_within P s s'.

(** The second scenario of the specification: an input of eight reads,
    five of which the table names, three for label [A] and two for [B]. *)
Definition scenario_binning : gmap string string :=
  {[ "r0" := "A"; "r2" := "A"; "r3" := "A"; "r1" := "B"; "r5" := "B" ]}.

Definition scenario_binning_files : gmap string file :=
  {[ "in/a.fast5" := Container (example_container "r" 8) ]}.

(** ** Predicates of the placement claim *)





(** ** Predicates of the batch-size claim *)

(** The reads of the inputs, counted in the files as they are before the
    run, an input as often as the list names it. *)
Definition total_reads (files : gmap string file) (file_list : list string) : Z :=
  foldr (fun p acc => Z.of_nat (default 0%nat (reads_at files p)) + acc) 0 file_list.

(** ceil(T / B), the count of outputs in the words of the specification. *)
Definition spec_batches (B T : Z) : Z := (T + B - 1) / B.

(** The count of outputs that a run makes: ceil(T / B) when there is a
    bound and a read, and one otherwise. *)
Definition batches (B T : Z) : Z :=
  if (0 <? B) && (0 <? T) then spec_batches B T else 1.

(** The world of a batch run in which no read has failed, from the files
    [files]: the current output is open on the path of its index, the
    outputs before it are full, it holds what its counter says, no later
    output exists, and no other path has changed. *)
Definition batch_world (output_folder filename_base : string) (B : Z)
    (files : gmap string file) (f : Batch.frame) : Prop :=
  let out := Batch.output_path output_folder filename_base in
  let b := Batch.batch_num (Batch.vars f) in
  let r := Batch.read_num (Batch.vars f) in
  let w := Batch.world f in
  0 <= b /\ 0 <= r
  /\ handles_wf w
  /\ handles w !! Batch.output_multi_f5 (Batch.vars f) = Some (out b)
  /\ log w = []
  /\ (forall n, 0 <= n < b -> reads_at (fs w) (out n) = Some (Z.to_nat B))
  /\ reads_at (fs w) (out b) = Some (Z.to_nat r)
  /\ (forall n, ~ (0 <= n <= b) -> fs w !! out n = None)
  /\ (forall p, (forall n, p ≠ out n) -> fs w !! p = files !! p).

(** The cursor after [k] reads, between two per-read steps. *)
Definition counted (B k : Z) (f : Batch.frame) : Prop :=
  let b := Batch.batch_num (Batch.vars f) in
  let r := Batch.read_num (Batch.vars f) in
  if 0 <? B then b * B + r = k /\ r <= B /\ (0 < k -> 1 <= r) else b = 0 /\ r = k.

(** The cursor after [k] reads, past the test of line 97: the current
    output has room for the read at hand. *)
Definition room (B k : Z) (f : Batch.frame) : Prop :=
  let b := Batch.batch_num (Batch.vars f) in
  let r := Batch.read_num (Batch.vars f) in
  if 0 <? B then b * B + r = k /\ r < B else b = 0 /\ r = k.

Definition batch_inv (output_folder filename_base : string) (B : Z)
    (files : gmap string file) (k : Z) (f : Batch.frame) : Prop :=
  batch_world output_folder filename_base B files f /\ counted B k f.

(** The first scenario of the specification: three inputs of 10, 5 and 7
    reads. *)
Definition scenario_batch_files : gmap string file :=
  {[ "in/a.fast5" := Container (example_container "a" 10);
     "in/b.fast5" := Container (example_container "b" 5);
     "in/c.fast5" := Container (example_container "c" 7) ]}.

Definition scenario_batch_list : list string :=
  ["in/a.fast5"; "in/b.fast5"; "in/c.fast5"].

(** ** Further predicates: the binning file *)

(** The line names the read [read_id]: its first field is [read_id]. *)
Definition names_read (read_id : string) (line : string) : Prop :=
  exists grp, fields line = [read_id; grp].

(** Every character of the line is white space; the empty line is one. *)
Definition blank (line : string) : bool :=
  forallb Text.isspace (list_ascii_of_string line).

(** ** Further predicates: handles and results *)

(** From a well-formed table of handles the run comes back to the same
    table, well-formed. *)
Definition handles_balanced (s s' : state) : Prop :=
  handles_wf s -> handles_wf s' /\ handles s' = handles s.

(** The path holds a container. *)
Definition is_container (x : option file) : bool :=
  match x with
  | Some (Container _) => true
  | _ => false
  end.

(** Arguments of a binning-mode run and of a batch-mode run, for the
    examples. *)
Definition example_binning_args : args :=
  Args "out" (Some [tsv_line ["r0"; "A"]; tsv_line ["r1"; "B"]]) "batch" 4000
       ["in/a.fast5"; "in/bad.fast5"].

Definition example_batch_args : args :=
  Args "out" None "batch" 2 ["in/a.fast5"; "in/bad.fast5"].

Definition example_files : gmap string file :=
  {[ "in/a.fast5" := Container (example_container "r" 3);
     "in/bad.fast5" := Corrupt ]}.

(** ** Further predicates: the files that a run touches *)

(** The files at the paths that [P] does not hold of are the same. *)
Definition untouched_outside (P : string -> Prop) (s s' : state) : Prop :=
  forall path, ~ P path -> fs s' !! path = fs s !! path.

(** While the handle [dst] stays open on [path], the files outside [P] are
    left alone. *)
Definition touches_through (dst : handle) (path : string)
    (P : string -> Prop) (s s' : state) : Prop :=
  handles s !! dst = Some path ->
  handles s' !! dst = Some path /\ untouched_outside P s s'.

(** An input of three reads that have been binned already, [r0] and [r2]
    under [A] and [r1] under [B]. *)
Definition binned_files : gmap string file :=
  {[ "in/a.fast5" := Container (example_container "r" 3);
     "out/A/a.fast5" := Container {[ "r0" := example_read "run1"; "r2" := example_read "run1" ]};
     "out/B/a.fast5" := Container {[ "r1" := example_read "run1" ]} ]}.

Definition binned_table : gmap string string :=
  {[ "r0" := "A"; "r1" := "B"; "r2" := "A" ]}.

(** ** Further predicates: batch mode under failures *)

(** Inside a batch run from the files [files]: the handle of the current
    output, if it is open, is open on an output path, and no path that is
    not an output path has changed. *)
Definition batch_untouched (output_folder filename_base : string)
    (files : gmap string file) (f : Batch.frame) : Prop :=
  let out := Batch.output_path output_folder filename_base in
  let w := Batch.world f in
  handles_wf w
  /\ (Batch.output_multi_f5 (Batch.vars f) < next_handle w)%nat
  /\ (forall p, handles w !! Batch.output_multi_f5 (Batch.vars f) = Some p ->
                exists n, p = out n)
  /\ (forall p, (forall n, p ≠ out n) -> fs w !! p = files !! p).

(** The world of a batch run from the files [files], whether reads have
    failed or not: the current output is open on the path of its index,
    the outputs before it hold at most [B] reads when there is a bound,
    the current one holds at most what its counter says, no later output
    exists, and no other path has changed. *)
Definition batch_shape (output_folder filename_base : string) (B : Z)
    (files : gmap string file) (f : Batch.frame) : Prop :=
  let out := Batch.output_path output_folder filename_base in
  let b := Batch.batch_num (Batch.vars f) in
  let r := Batch.read_num (Batch.vars f) in
  let w := Batch.world f in
  0 <= b /\ 0 <= r
  /\ handles_wf w
  /\ handles w !! Batch.output_multi_f5 (Batch.vars f) = Some (out b)
  /\ (forall n, 0 <= n < b ->
        exists m, reads_at (fs w) (out n) = Some m /\ (0 < B -> Z.of_nat m <= B))
  /\ (exists m, reads_at (fs w) (out b) = Some m /\ Z.of_nat m <= r)
  /\ (forall n, ~ (0 <= n <= b) -> fs w !! out n = None)
  /\ (forall p, (forall n, p ≠ out n) -> fs w !! p = files !! p).

(** The handle [h] is open and is not the handle of the current output. *)
Definition open_beside (h : handle) (f : Batch.frame) : Prop :=
  is_Some (handles (Batch.world f) !! h) /\ h ≠ Batch.output_multi_f5 (Batch.vars f).

(** An input of three reads of which the second has lost its run id, so
    that its copy fails. *)
Definition damaged_files : gmap string file :=
  {[ "in/a.fast5" := Container
       {[ "r0" := example_read "run1";
          "r1" := Read None {[ "Raw" := raw_signal ]};
          "r2" := example_read "run1" ]} ]}.



(** The world has only grown, and every read id that a container of [s']
    holds was in that container in [s], or another container of [s']
    holds a read of that id. *)
Definition ids_from_elsewhere (s s' : state) : Prop :=
  grows s s'
  /\ forall path read_id,
       present (fs s') path read_id ->
       present (fs s) path read_id \/ exists q, q ≠ path /\ present (fs s') q read_id.

(** * Properties *)

(** ** The text helpers on examples *)

Example strip_ex : Text.strip (String Text.tab ("  ab c " +:+ String Text.newline EmptyString)) = "ab c".
Proof. reflexivity. Qed.
Example split_ex : Text.split Text.tab ("a" +:+ String Text.tab (String Text.tab "b")) = ["a"; EmptyString; "b"].
Proof. reflexivity. Qed.
Example join_ex : Text.join "out" ["A"; "f.fast5"] = "out/A/f.fast5".
Proof. reflexivity. Qed.
Example join_abs_ex : Text.join "out/" ["/A"; "f.fast5"] = "/A/f.fast5".
Proof. reflexivity. Qed.
Example basename_ex : Text.basename "/x/y/f.fast5" = "f.fast5" /\ Text.basename "f" = "f" /\ Text.basename "a/" = EmptyString.
Proof. repeat split; reflexivity. Qed.
Example batch_name_ex : Text.batch_name "batch" 12 = "batch_12.fast5".
Proof. reflexivity. Qed.

(** ** The binning table *)

Section ParseCsv.

Lemma parse_line_ok line read_id grp :
  parse_line line = Ok (read_id, grp) <-> fields line = [read_id; grp].
Proof.
  unfold parse_line, fields.
  destruct (Text.split _ _) as [|a [|b [|c l]]]; split; intros H;
    try discriminate; by simplify_eq.
Qed.

Lemma parse_line_raise line :
  (exists e, parse_line line = Raise e) <-> length (fields line) ≠ 2%nat.
Proof.
  unfold parse_line, fields.
  destruct (Text.split _ _) as [|a [|b [|c l]]]; simpl; split;
    try (intros [e He]; discriminate); try (intros ?; by eauto); try done.
Qed.

Lemma parse_lines_raise binning lines :
  (exists e, parse_lines binning lines = Raise e)
  <-> Exists (fun line => length (fields line) ≠ 2%nat) lines.
Proof.
  revert binning. induction lines as [|line rest IH]; intros binning; simpl.
  - split; [intros [e He]; discriminate | intros H; inversion H].
  - rewrite Exists_cons, <- parse_line_raise.
    destruct (parse_line line) as [[read_id grp]|e] eqn:Hl.
    + rewrite IH. split; [by right | intros [[e He]|H]; [discriminate | done]].
    + split; [intros _; left; by eauto | intros _; by eauto].
Qed.

(** Lines that do not name [read_id] leave its entry alone. *)
Lemma parse_lines_other binning lines m read_id :
  parse_lines binning lines = Ok m ->
  Forall (fun line => forall g, parse_line line ≠ Ok (read_id, g)) lines ->
  m !! read_id = binning !! read_id.
Proof.
  revert binning. induction lines as [|line rest IH]; intros binning; simpl.
  - intros [= ->] _. done.
  - intros Hm Hall. apply Forall_cons in Hall as [Hline Hrest].
    destruct (parse_line line) as [[r g]|e] eqn:Hl; [|discriminate].
    rewrite (IH _ Hm Hrest). apply lookup_insert_ne.
    intros ->. by apply (Hline g).
Qed.

Lemma parse_lines_last binning pre line post m read_id grp :
  parse_lines binning (pre ++ line :: post) = Ok m ->
  parse_line line = Ok (read_id, grp) ->
  Forall (fun l => forall g, parse_line l ≠ Ok (read_id, g)) post ->
  m !! read_id = Some grp.
Proof.
  revert binning. induction pre as [|l pre IH]; intros binning; simpl.
  - intros Hm Hl Hpost. rewrite Hl in Hm.
    rewrite (parse_lines_other _ _ _ _ Hm Hpost). apply lookup_insert_eq.
  - destruct (parse_line l) as [[r g]|e]; [|discriminate]. apply IH.
Qed.

End ParseCsv.

(** C5, as the code has it.  [parse_csv] raises exactly when some line,
    once stripped of the white space at both ends, is not cut by its tabs
    into two fields; when it returns, the label of a read id is the one on
    the last line that names it; and in [main] the exception of
    [parse_csv] leaves the function before anything is opened or written. *)
Theorem parse_csv_stripped_fields (lines : list string) :
  ((exists e, parse_csv lines = Raise e)
   <-> Exists (fun line => length (fields line) ≠ 2%nat) lines)
  /\ (forall m pre line post read_id grp,
        parse_csv lines = Ok m ->
        lines = (pre ++ line :: post)%list ->
        fields line = [read_id; grp] ->
        Forall (fun l => forall g, fields l ≠ [read_id; g]) post ->
        m !! read_id = Some grp)
  /\ (forall e a s,
        binning_csv_file a = Some lines ->
        parse_csv lines = Raise e ->
        main a s = (Raise e, s)).
Proof.
  split; [apply parse_lines_raise|]. split.
  - intros m pre line post read_id grp Hm -> Hline Hpost.
    eapply parse_lines_last; [exact Hm | by apply parse_line_ok |].
    eapply Forall_impl; [exact Hpost|]. intros l Hl g Hg.
    by apply (Hl g), parse_line_ok.
  - intros e a s Ha He. unfold main. by rewrite Ha, He.
Qed.

Lemma parse_csv_stripped_fields_witness :
  let lines := [tsv_line ["r1"; "A"]; tsv_line ["r2"; "A"]; tsv_line ["r1"; "B"; EmptyString]] in
  exists m, parse_csv lines = Ok m /\ m !! "r1" = Some "B".
Proof.
  intros lines.
  destruct (parse_csv lines) as [m|e] eqn:Hm; [|by vm_compute in Hm].
  exists m. split; [done|].
  apply (proj1 (proj2 (parse_csv_stripped_fields lines)) m
           [tsv_line ["r1"; "A"]; tsv_line ["r2"; "A"]] (tsv_line ["r1"; "B"; EmptyString]) []
           "r1" "B"); [exact Hm | reflexivity | reflexivity | constructor].
Defined.

(** C5, as the claim words it, fails in both directions: a line with a
    third, empty column is accepted, and a line whose second column is
    empty is refused although a tab cuts it in two. *)
Lemma parse_csv_two_fields_counterexample :
  (Exists (fun line => ~ spec_two_fields line) [tsv_line ["r1"; "A"; EmptyString]]
   /\ parse_csv [tsv_line ["r1"; "A"; EmptyString]] = Ok {[ "r1" := "A" ]})
  /\ (Forall spec_two_fields [tsv_line ["r1"; EmptyString]]
      /\ parse_csv [tsv_line ["r1"; EmptyString]] = Raise ValueError).
Proof.
  split; split.
  - constructor. unfold spec_two_fields. vm_compute. discriminate.
  - reflexivity.
  - constructor; [reflexivity | constructor].
  - reflexivity.
Qed.

(** ** The batch cursor *)

Section Cursor.
Variables (output_folder filename_base : string) (batch_size : Z).

Local Abbreviation read_step := (Batch.read_step output_folder filename_base batch_size).
Local Abbreviation file_step := (Batch.file_step output_folder filename_base batch_size).
Local Abbreviation rollover := (Batch.rollover output_folder filename_base).

Lemma lift_vars {A} (m : M state A) f :
  Batch.vars (snd (Batch.lift m f)) = Batch.vars f.
Proof. unfold Batch.lift. by destruct (m (Batch.world f)). Qed.

Lemma lift_eq {A} (m : M state A) f r f' :
  Batch.lift m f = (r, f') ->
  m (Batch.world f) = (r, Batch.world f') /\ Batch.vars f' = Batch.vars f.
Proof.
  unfold Batch.lift. destruct (m (Batch.world f)) as [r0 w].
  intros [= <- <-]. done.
Qed.

(** What [rollover] does to the locals: the index goes up by one, and
    the counter is 0 unless the new output could not be opened. *)
Lemma rollover_vars f r f' :
  rollover f = (r, f') ->
  Batch.batch_num (Batch.vars f') = Batch.batch_num (Batch.vars f) + 1
  /\ ((r = Ok tt /\ Batch.read_num (Batch.vars f') = 0)
      \/ ((exists e, r = Raise e)
          /\ Batch.read_num (Batch.vars f') = Batch.read_num (Batch.vars f))).
Proof.
  unfold Batch.rollover, bind, gets, Batch.assign, modify, Api.close. simpl.
  destruct (Batch.lift (Api.open _ _) _) as [[h|e] f1] eqn:Hopen;
    apply lift_eq in Hopen as [_ Hv]; simpl in Hv; intros [= <- <-]; simpl.
  - split; [by rewrite Hv | left; done].
  - rewrite Hv. simpl. split; [done | right; by eauto].
Qed.

(** The try block of lines 103-112 leaves the locals alone and never
    raises. *)
Lemma copy_block_vars multi_f5 read_id f :
  let m := try_except
    (out <- gets (fun f => Batch.output_multi_f5 (Batch.vars f)) ;;
     Batch.lift (copy_read multi_f5 read_id out))
    (fun e =>
       path <- gets (fun f => Batch.output_file (Batch.vars f)) ;;
       Batch.lift (logger_error (FailedWriteMultiRead e path))) in
  fst (m f) = Ok tt /\ Batch.vars (snd (m f)) = Batch.vars f.
Proof.
  simpl. unfold try_except, bind, gets.
  destruct (Batch.lift (copy_read _ _ _) f) as [[[]|e] f1] eqn:Hc;
    apply lift_eq in Hc as [_ Hv]; [done|].
  unfold Batch.lift, logger_error, modify. simpl. done.
Qed.

Lemma read_step_vars multi_f5 read_id f r f' :
  read_step multi_f5 read_id f = (r, f') ->
  let b := Batch.batch_num (Batch.vars f) in
  let n := Batch.read_num (Batch.vars f) in
  let b' := Batch.batch_num (Batch.vars f') in
  let n' := Batch.read_num (Batch.vars f') in
  (r = Ok tt /\ ~ (batch_size <= n /\ 0 < batch_size) /\ b' = b /\ n' = n + 1)
  \/ (r = Ok tt /\ batch_size <= n /\ 0 < batch_size /\ b' = b + 1 /\ n' = 1)
  \/ ((exists e, r = Raise e) /\ batch_size <= n /\ 0 < batch_size
      /\ b' = b + 1 /\ n' = n).
Proof.
  unfold Batch.read_step. unfold bind at 1. unfold gets at 1. unfold bind at 1.
  destruct ((batch_size <=? Batch.read_num (Batch.vars f)) && (0 <? batch_size)) eqn:Hc.
  - apply andb_true_iff in Hc as [H1%Z.leb_le H2%Z.ltb_lt].
    destruct (rollover f) as [[[]|e] f1] eqn:Hr;
      apply rollover_vars in Hr as [Hb [[? Hn]|[[e' ?] Hn]]]; try discriminate.
    + unfold bind at 1.
      pose proof (copy_block_vars multi_f5 read_id f1) as [Hok Hv]. simpl in Hok, Hv.
      destruct (try_except _ _ f1) as [rc f2]. simpl in Hok, Hv. subst rc.
      unfold bind, gets, Batch.assign, modify. intros [= <- <-]. simpl.
      right; left. rewrite Hv, Hb, Hn. repeat split; lia.
    + intros [= <- <-]. simpl. right; right. rewrite Hb, Hn. by eauto 10.
  - apply andb_false_iff in Hc.
    unfold ret at 1. unfold bind at 1.
    pose proof (copy_block_vars multi_f5 read_id f) as [Hok Hv]. simpl in Hok, Hv.
    destruct (try_except _ _ f) as [rc f2]. simpl in Hok, Hv. subst rc.
    unfold bind, gets, Batch.assign, modify. intros [= <- <-]. simpl.
    left. rewrite Hv.
    assert (~ (batch_size <= Batch.read_num (Batch.vars f) /\ 0 < batch_size)).
    { destruct Hc as [Hc|Hc]; [apply Z.leb_gt in Hc | apply Z.ltb_ge in Hc]; lia. }
    done.
Qed.

Global Instance lex_le_refl : Reflexive lex_le.
Proof. intros a. by left. Qed.

Global Instance lex_le_trans : Transitive lex_le.
Proof.
  intros a b c [->|Hab] [->|Hbc]; [by left | by right | by right |].
  right. unfold lex_lt in *. lia.
Qed.

(** A loop keeps every preorder that its body keeps, on both exits. *)
Lemma for_each_preorder {S A} (R : relation S) `{!Reflexive R, !Transitive R}
    (l : list A) (body : A -> M S unit) :
  (forall x s, R s (snd (body x s))) ->
  forall s, R s (snd (for_each l body s)).
Proof.
  intros Hbody. induction l as [|x l IH]; intros s; simpl; [reflexivity|].
  unfold bind. specialize (Hbody x s).
  destruct (body x s) as [[[]|e] s1]; simpl in *; [|done].
  etransitivity; [exact Hbody | apply IH].
Qed.

Lemma try_finally_preorder {S A} (R : relation S) `{!Transitive R}
    (m : M S A) (fin : M S unit) s :
  R s (snd (m s)) -> (forall s1, R s1 (snd (fin s1))) ->
  R s (snd (try_finally m fin s)).
Proof.
  intros Hm Hf. unfold try_finally. destruct (m s) as [r s1]. simpl in Hm.
  specialize (Hf s1). destruct (fin s1) as [[[]|e] s2]; simpl in *;
    by etransitivity.
Qed.

Global Instance cursor_le_refl : Reflexive cursor_le.
Proof. intros f. split; [lia | reflexivity]. Qed.

Global Instance cursor_le_trans : Transitive cursor_le.
Proof.
  intros a b c [H1 H2] [H3 H4]. split; [lia | by etransitivity].
Qed.

Lemma cursor_le_vars f f' : Batch.vars f' = Batch.vars f -> cursor_le f f'.
Proof. intros H. unfold cursor_le, cursor. rewrite H. split; [lia | reflexivity]. Qed.

Lemma read_step_cursor_le multi_f5 read_id f :
  cursor_le f (snd (read_step multi_f5 read_id f)).
Proof.
  destruct (read_step multi_f5 read_id f) as [r f'] eqn:Hs.
  apply read_step_vars in Hs. unfold cursor_le, lex_le, lex_lt, cursor. simpl in *.
  split; [lia|]. right. simpl. lia.
Qed.

Lemma file_step_cursor_le input_file f :
  cursor_le f (snd (file_step input_file f)).
Proof.
  unfold Batch.file_step. unfold bind at 1.
  destruct (Batch.lift (Api.open _ _) f) as [[h|e] f1] eqn:Ho;
    apply lift_eq in Ho as [_ Hv]; simpl; [|by apply cursor_le_vars].
  transitivity f1; [by apply cursor_le_vars|].
  apply try_finally_preorder; [apply _ | | intros s1; apply cursor_le_vars, lift_vars].
  unfold bind at 1.
  destruct (Batch.lift (Api.get_read_ids h) f1) as [[ids|e] f2] eqn:Hi;
    apply lift_eq in Hi as [_ Hv2]; simpl; [|by apply cursor_le_vars].
  transitivity f2; [by apply cursor_le_vars|].
  apply for_each_preorder; [apply _ | apply _ |]. intros. apply read_step_cursor_le.
Qed.

(** C9.  At every per-read step the output index does not decrease and the
    cursor grows in the lexicographic order; a step in which the counter
    is not simply incremented is a step in which the index is
    incremented; [rollover], the only place that assigns 0 to the counter,
    increments the index; and over the whole loop of a run the index and
    the cursor do not decrease. *)
Theorem cursor_advances :
  (forall multi_f5 read_id f,
     let f' := snd (read_step multi_f5 read_id f) in
     Batch.batch_num (Batch.vars f) <= Batch.batch_num (Batch.vars f')
     /\ lex_lt (cursor f) (cursor f')
     /\ (Batch.read_num (Batch.vars f') ≠ Batch.read_num (Batch.vars f) + 1 ->
         Batch.batch_num (Batch.vars f') = Batch.batch_num (Batch.vars f) + 1))
  /\ (forall f,
        Batch.batch_num (Batch.vars (snd (rollover f)))
        = Batch.batch_num (Batch.vars f) + 1)
  /\ (forall file_list f,
        let f' := snd (for_each file_list file_step f) in
        Batch.batch_num (Batch.vars f) <= Batch.batch_num (Batch.vars f')
        /\ lex_le (cursor f) (cursor f')).
Proof.
  split; [|split].
  - intros multi_f5 read_id f.
    destruct (read_step multi_f5 read_id f) as [r f'] eqn:Hs. simpl.
    apply read_step_vars in Hs. unfold lex_lt, cursor. simpl in *. lia.
  - intros f. destruct (rollover f) as [r f'] eqn:Hr. simpl.
    by apply rollover_vars in Hr as [-> _].
  - intros file_list f.
    apply (for_each_preorder cursor_le). intros. apply file_step_cursor_le.
Qed.

End Cursor.

(** ** The per-read copy *)

Lemma set_fs_set_fs f1 f2 s : set_fs f2 (set_fs f1 s) = set_fs f2 s.
Proof. done. Qed.

Lemma copy_group_ok src dst read_id ps pd cs rs s cd run copied n b :
  handles s !! src = Some ps -> handles s !! dst = Some pd ->
  fs s !! ps = Some (Container cs) -> cs !! read_id = Some rs ->
  fs s !! pd = Some (Container cd) -> cd !! read_id = Some (Read run copied) ->
  groups rs !! n = Some b -> copied !! n = None ->
  Api.copy (dst, read_id) (src, read_id) n s
  = (Ok tt, set_fs (<[pd := Container (<[read_id := Read run (<[n := b]> copied)]> cd)]> (fs s)) s).
Proof.
  intros Hhs Hhd Hps Hrs Hpd Hrd Hb Hn.
  unfold Api.copy, Api.container_of, Api.path_of, Api.container_at, bind, modify. simpl.
  rewrite Hhs, Hps, Hrs. simpl. rewrite Hb, Hhd, Hpd, Hrd. simpl. by rewrite Hn.
Qed.

Lemma copy_groups_loop src dst read_id ps pd cs rs (l : list (string * blob)) :
  forall s cd run (copied : gmap string blob),
  NoDup l.*1 ->
  (forall n, n ∈ l.*1 -> copied !! n = None) ->
  (forall n b, (n, b) ∈ l -> groups rs !! n = Some b) ->
  handles s !! src = Some ps -> handles s !! dst = Some pd -> ps ≠ pd ->
  fs s !! ps = Some (Container cs) -> cs !! read_id = Some rs ->
  fs s !! pd = Some (Container cd) -> cd !! read_id = Some (Read run copied) ->
  for_each l.*1 (fun group => Api.copy (dst, read_id) (src, read_id) group) s
  = (Ok tt, set_fs (<[pd := Container (<[read_id := Read run (list_to_map l ∪ copied)]> cd)]> (fs s)) s).
Proof.
  induction l as [|[n b] l IH]; intros s cd run copied Hnd Hfresh Hsrc Hhs Hhd Hne Hps Hrs Hpd Hrd.
  - simpl. unfold ret. f_equal. destruct s as [f hs nh lg]. unfold set_fs. simpl in *. f_equal.
    rewrite (left_id_L ∅ (∪)). rewrite (insert_id cd) by done. by rewrite insert_id.
  - simpl. unfold bind.
    apply NoDup_cons in Hnd as [Hn Hnd].
    rewrite (copy_group_ok src dst read_id ps pd cs rs s cd run copied n b); try done.
    2:{ apply Hsrc. left. }
    2:{ apply Hfresh. left. }
    rewrite (IH _ (<[read_id := Read run (<[n := b]> copied)]> cd) run (<[n := b]> copied)); try done.
    + rewrite set_fs_set_fs. simpl. rewrite !insert_insert_eq.
      rewrite <- insert_union_l. rewrite insert_union_r; [done|].
      by apply not_elem_of_list_to_map_1.
    + intros m Hm. rewrite lookup_insert_ne; [apply Hfresh; by right|].
      intros ->. done.
    + intros m c Hm. apply Hsrc. by right.
    + simpl. by rewrite lookup_insert_ne.
    + simpl. apply lookup_insert_eq.
    + apply lookup_insert_eq.
Qed.

Lemma container_of_eval h s :
  Api.container_of h s
  = (match lookup_container s h with Some c => Ok c | None => Raise IOError end, s).
Proof.
  unfold Api.container_of, Api.path_of, Api.container_at, bind, lookup_container.
  destruct (handles s !! h) as [p|]; simpl; [|done].
  by destruct (fs s !! p) as [[|c]|].
Qed.

Lemma get_read_ids_eval h s :
  Api.get_read_ids h s
  = (match lookup_container s h with
     | Some c => Ok (map_to_list c).*1
     | None => Raise IOError
     end, s).
Proof.
  unfold Api.get_read_ids, bind. rewrite container_of_eval.
  by destruct (lookup_container s h).
Qed.

Lemma get_read_eval h read_id s :
  Api.get_read h read_id s
  = (match lookup_container s h with
     | Some c => match c !! read_id with
                 | Some _ => Ok (h, read_id)
                 | None => Raise KeyError
                 end
     | None => Raise IOError
     end, s).
Proof.
  unfold Api.get_read, bind. rewrite container_of_eval.
  destruct (lookup_container s h) as [c|]; [|done]. by destruct (c !! read_id).
Qed.

Lemma attrs_run_id_eval h read_id s :
  Api.attrs_run_id h read_id s
  = (match lookup_container s h with
     | Some c => match c !! read_id with
                 | Some (Read (Some r) _) => Ok r
                 | _ => Raise KeyError
                 end
     | None => Raise IOError
     end, s).
Proof.
  unfold Api.attrs_run_id, bind. rewrite container_of_eval.
  destruct (lookup_container s h) as [c|]; [|done].
  by destruct (c !! read_id) as [[[r|] g]|].
Qed.

Lemma group_names_eval h read_id s :
  Api.group_names (h, read_id) s
  = (match lookup_container s h with
     | Some c => match c !! read_id with
                 | Some r => Ok (map_to_list (groups r)).*1
                 | None => Raise KeyError
                 end
     | None => Raise IOError
     end, s).
Proof.
  unfold Api.group_names, bind. simpl. rewrite container_of_eval.
  destruct (lookup_container s h) as [c|]; [|done]. by destruct (c !! read_id).
Qed.

Lemma create_read_eval h read_id run s :
  Api.create_read h read_id run s
  = match handles s !! h with
    | None => (Raise IOError, s)
    | Some p =>
        match fs s !! p with
        | Some (Container c) =>
            match c !! read_id with
            | Some _ => (Raise ValueError, s)
            | None => (Ok (h, read_id),
                       set_fs (<[p := Container (<[read_id := Read (Some run) ∅]> c)]> (fs s)) s)
            end
        | _ => (Raise IOError, s)
        end
    end.
Proof.
  unfold Api.create_read, Api.path_of, Api.container_at, bind, modify, ret.
  destruct (handles s !! h) as [p|]; [|done].
  destruct (fs s !! p) as [[|c]|]; [done| |done]. by destruct (c !! read_id).
Qed.

Lemma lookup_container_Some s h c :
  lookup_container s h = Some c
  <-> exists p, handles s !! h = Some p /\ fs s !! p = Some (Container c).
Proof.
  unfold lookup_container. split.
  - destruct (handles s !! h) as [p|] eqn:Hh; simpl; [|done].
    destruct (fs s !! p) as [[|c']|] eqn:Hp; try done. intros [= ->]. by eauto.
  - intros (p & -> & Hp). simpl. by rewrite Hp.
Qed.

(** The per-read copy, in closed form: it either adds the whole read to
    the destination or raises and leaves the state as it was. *)
Lemma copy_read_eval src read_id dst s :
  copy_read src read_id dst s
  = match lookup_container s src with
    | None => (Raise IOError, s)
    | Some cs =>
        match cs !! read_id with
        | Some (Read (Some run) g) =>
            match handles s !! dst with
            | None => (Raise IOError, s)
            | Some pd =>
                match fs s !! pd with
                | Some (Container cd) =>
                    match cd !! read_id with
                    | Some _ => (Raise ValueError, s)
                    | None =>
                        (Ok tt, set_fs (<[pd := Container (<[read_id := Read (Some run) g]> cd)]> (fs s)) s)
                    end
                | _ => (Raise IOError, s)
                end
            end
        | _ => (Raise KeyError, s)
        end
    end.
Proof.
  unfold copy_read.
  unfold bind at 1. rewrite get_read_eval.
  destruct (lookup_container s src) as [cs|] eqn:Hcs; [|done].
  destruct (cs !! read_id) as [[[run|] g]|] eqn:Hrs.
  2,3: cbv beta iota; unfold bind; by rewrite ?attrs_run_id_eval, ?Hcs, ?Hrs.
  cbv beta iota. unfold bind at 1. rewrite attrs_run_id_eval, Hcs, Hrs.
  cbv beta iota. unfold bind at 1. rewrite create_read_eval.
  apply lookup_container_Some in Hcs as (ps & Hhs & Hps).
  destruct (handles s !! dst) as [pd|] eqn:Hhd; [|done].
  destruct (fs s !! pd) as [[|cd]|] eqn:Hpd; [done| |done].
  destruct (cd !! read_id) as [r|] eqn:Hrd; [done|].
  assert (ps ≠ pd) as Hne by (intros ->; congruence).
  set (s1 := set_fs _ s).
  assert (lookup_container s1 src = Some cs) as Hcs1.
  { apply lookup_container_Some. exists ps. split; [done|]. simpl. by rewrite lookup_insert_ne. }
  cbv beta iota. unfold bind at 1. rewrite group_names_eval, Hcs1, Hrs. simpl groups.
  rewrite (copy_groups_loop src dst read_id ps pd cs (Read (Some run) g) (map_to_list g)
             s1 (<[read_id := Read (Some run) ∅]> cd) (Some run) ∅).
  - subst s1. rewrite set_fs_set_fs. simpl. rewrite !insert_insert_eq.
    by rewrite list_to_map_to_list, (right_id_L ∅ (∪)).
  - apply NoDup_fst_map_to_list.
  - intros; apply lookup_empty.
  - intros n b. simpl. apply elem_of_map_to_list.
  - done.
  - done.
  - done.
  - simpl. by rewrite lookup_insert_ne.
  - done.
  - simpl. apply lookup_insert_eq.
  - apply lookup_insert_eq.
Qed.

Lemma copy_read_cases src read_id dst s :
  (exists ps pd cs cd run g,
      handles s !! src = Some ps /\ handles s !! dst = Some pd
      /\ fs s !! ps = Some (Container cs) /\ cs !! read_id = Some (Read (Some run) g)
      /\ fs s !! pd = Some (Container cd) /\ cd !! read_id = None
      /\ copy_read src read_id dst s
         = (Ok tt, set_fs (<[pd := Container (<[read_id := Read (Some run) g]> cd)]> (fs s)) s))
  \/ (exists e, copy_read src read_id dst s = (Raise e, s)).
Proof.
  rewrite copy_read_eval.
  destruct (lookup_container s src) as [cs|] eqn:Hcs; [|right; by eauto].
  destruct (cs !! read_id) as [[[run|] g]|] eqn:Hrs; [|right; by eauto..].
  apply lookup_container_Some in Hcs as (ps & Hhs & Hps).
  destruct (handles s !! dst) as [pd|] eqn:Hhd; [|right; by eauto].
  destruct (fs s !! pd) as [[|cd]|] eqn:Hpd; [right; by eauto| |right; by eauto].
  destruct (cd !! read_id) as [r|] eqn:Hrd; [right; by eauto|].
  left. exists ps, pd, cs, cd, run, g. done.
Qed.

Lemma copy_read_ok src read_id dst s s' :
  copy_read src read_id dst s = (Ok tt, s') ->
  exists ps pd cs cd run g,
    handles s !! src = Some ps /\ handles s !! dst = Some pd
    /\ fs s !! ps = Some (Container cs) /\ cs !! read_id = Some (Read (Some run) g)
    /\ fs s !! pd = Some (Container cd) /\ cd !! read_id = None
    /\ s' = set_fs (<[pd := Container (<[read_id := Read (Some run) g]> cd)]> (fs s)) s.
Proof.
  intros H. destruct (copy_read_cases src read_id dst s)
    as [(ps & pd & cs & cd & run & g & ? & ? & ? & ? & ? & ? & Heq)|[e He]].
  - exists ps, pd, cs, cd, run, g. repeat (split; [done|]). congruence.
  - congruence.
Qed.

Lemma copy_read_raise src read_id dst s e s' :
  copy_read src read_id dst s = (Raise e, s') -> s' = s.
Proof.
  intros H. destruct (copy_read_cases src read_id dst s)
    as [(ps & pd & cs & cd & run & g & ? & ? & ? & ? & ? & ? & Heq)|[e' He]];
    congruence.
Qed.


(** ** Relations kept by the control structures *)

Global Instance keeps_refl {S} (P : S -> Prop) : Reflexive (keeps P).
Proof. intros s Hs. exact Hs. Qed.

Global Instance keeps_trans {S} (P : S -> Prop) : Transitive (keeps P).
Proof. intros a b c Hab Hbc Ha. by apply Hbc, Hab. Qed.

Lemma preserves_ret {S A} (R : relation S) `{!Reflexive R} (a : A) :
  preserves R (ret a).
Proof. intros s. reflexivity. Qed.

Lemma preserves_raise {S A} (R : relation S) `{!Reflexive R} e :
  preserves R (raise (A:=A) e).
Proof. intros s. reflexivity. Qed.

Lemma preserves_gets {S A} (R : relation S) `{!Reflexive R} (g : S -> A) :
  preserves R (gets g).
Proof. intros s. reflexivity. Qed.

Lemma preserves_bind {S A B} (R : relation S) `{!Transitive R}
    (m : M S A) (k : A -> M S B) :
  preserves R m -> (forall a, preserves R (k a)) -> preserves R (bind m k).
Proof.
  intros Hm Hk s. unfold bind. specialize (Hm s).
  destruct (m s) as [[a|e] s1]; simpl in *; [|done].
  etransitivity; [exact Hm | apply Hk].
Qed.

Lemma preserves_try_except {S A} (R : relation S) `{!Transitive R}
    (m : M S A) (h : exn -> M S A) :
  preserves R m -> (forall e, preserves R (h e)) -> preserves R (try_except m h).
Proof.
  intros Hm Hh s. unfold try_except. specialize (Hm s).
  destruct (m s) as [[a|e] s1]; simpl in *; [done|].
  etransitivity; [exact Hm | apply Hh].
Qed.

Lemma preserves_try_finally {S A} (R : relation S) `{!Transitive R}
    (m : M S A) (fin : M S unit) :
  preserves R m -> preserves R fin -> preserves R (try_finally m fin).
Proof. intros Hm Hf s. apply try_finally_preorder; [apply _ | apply Hm | apply Hf]. Qed.

Lemma preserves_for_each {S A} (R : relation S) `{!Reflexive R, !Transitive R}
    (l : list A) (body : A -> M S unit) :
  (forall x, preserves R (body x)) -> preserves R (for_each l body).
Proof. intros Hb s. apply for_each_preorder; try apply _. intros; apply Hb. Qed.

(** ** Handles *)

Global Instance same_handles_refl : Reflexive same_handles.
Proof. intros s. by split. Qed.

Global Instance same_handles_trans : Transitive same_handles.
Proof. intros a b c [H1 H2] [H3 H4]. split; congruence. Qed.

Lemma copy_read_same_handles src read_id dst :
  preserves same_handles (copy_read src read_id dst).
Proof.
  intros s. rewrite copy_read_eval. repeat case_match; done.
Qed.

Lemma get_read_ids_same_handles h : preserves same_handles (Api.get_read_ids h).
Proof. intros s. by rewrite get_read_ids_eval. Qed.

Lemma logger_error_same_handles x : preserves same_handles (logger_error x).
Proof. by intros s. Qed.

Lemma open_eval path m s :
  Api.open path m s
  = let h := next_handle s in
    match fs s !! path, m with
    | Some (Container _), _ =>
        (Ok h, State (fs s) (<[h := path]> (handles s)) (S h) (log s))
    | None, ModeA =>
        (Ok h, State (<[path := Container ∅]> (fs s)) (<[h := path]> (handles s)) (S h) (log s))
    | _, _ => (Raise IOError, s)
    end.
Proof. unfold Api.open. by repeat case_match. Qed.

(** What [Api.open] does to the handles. *)
Lemma open_handles path m s r s' :
  Api.open path m s = (r, s') ->
  ((exists e, r = Raise e) /\ s' = s)
  \/ (r = Ok (next_handle s)
      /\ handles s' = <[next_handle s := path]> (handles s)
      /\ next_handle s' = S (next_handle s)
      /\ log s' = log s).
Proof.
  rewrite open_eval. simpl.
  repeat case_match; intros [= <- <-]; by eauto 10.
Qed.

Lemma handles_wf_fresh s : handles_wf s -> handles s !! next_handle s = None.
Proof.
  intros Hwf. destruct (handles s !! next_handle s) as [p|] eqn:Hh; [|done].
  apply Hwf in Hh. lia.
Qed.

Section BatchHandles.
Variables (output_folder filename_base : string) (batch_size : Z).

Local Abbreviation read_step := (Batch.read_step output_folder filename_base batch_size).
Local Abbreviation file_step := (Batch.file_step output_folder filename_base batch_size).
Local Abbreviation rollover := (Batch.rollover output_folder filename_base).

Lemma lift_batch_handles {A} (m : M state A) H :
  preserves same_handles m -> preserves (keeps (batch_handles H)) (Batch.lift m).
Proof.
  intros Hm f (Hwf & Hout & Hd).
  destruct (Batch.lift m f) as [r f'] eqn:Hl. simpl.
  apply lift_eq in Hl as [Hl Hv]. specialize (Hm (Batch.world f)).
  rewrite Hl in Hm. destruct Hm as [Hh Hn]. simpl in Hh, Hn.
  unfold batch_handles, handles_wf. rewrite Hv, Hh, Hn. done.
Qed.

Lemma assign_batch_handles g H :
  (forall l, Batch.output_multi_f5 (g l) = Batch.output_multi_f5 l) ->
  preserves (keeps (batch_handles H)) (Batch.assign g).
Proof.
  intros Hg f (Hwf & Hout & Hd). unfold batch_handles. simpl. by rewrite Hg.
Qed.

Lemma rollover_batch_handles H : preserves (keeps (batch_handles H)) rollover.
Proof.
  intros f (Hwf & Hout & Hd).
  unfold Batch.rollover, bind, gets, Batch.assign, modify, Batch.lift, Api.close. simpl.
  set (w1 := State _ (delete _ _) _ _).
  assert (handles_wf w1) as Hwf1.
  { intros h p. subst w1. simpl. intros [_ Hh]%lookup_delete_Some. by apply (Hwf h p). }
  destruct (Api.open _ ModeA w1) as [r w2] eqn:Ho. simpl.
  apply open_handles in Ho as [[[e ->] ->]|(-> & Hh & Hn & _)]; simpl.
  - unfold batch_handles. simpl. split; [done|]. split; [done|].
    rewrite <- Hd. apply delete_delete_eq.
  - unfold batch_handles, handles_wf. simpl. rewrite Hh, Hn. simpl.
    split; [|split; [lia|]].
    + intros h p [[-> _]|[_ Hp]]%lookup_insert_Some; [lia|].
      apply lookup_delete_Some in Hp as [_ Hp]. apply Hwf in Hp. lia.
    + rewrite delete_insert_eq, delete_id; [exact Hd|].
      apply (handles_wf_fresh w1 Hwf1).
Qed.

Lemma copy_block_batch_handles multi_f5 read_id H :
  preserves (keeps (batch_handles H))
    (try_except
       (out <- gets (fun f => Batch.output_multi_f5 (Batch.vars f)) ;;
        Batch.lift (copy_read multi_f5 read_id out))
       (fun e =>
          path <- gets (fun f => Batch.output_file (Batch.vars f)) ;;
          Batch.lift (logger_error (FailedWriteMultiRead e path)))).
Proof.
  apply preserves_try_except; [apply _ | |intros e].
  - apply preserves_bind; [apply _ | apply preserves_gets; apply _ |]. intros out.
    apply lift_batch_handles, copy_read_same_handles.
  - apply preserves_bind; [apply _ | apply preserves_gets; apply _ |]. intros path.
    apply lift_batch_handles, logger_error_same_handles.
Qed.

Lemma read_step_batch_handles multi_f5 read_id H :
  preserves (keeps (batch_handles H)) (read_step multi_f5 read_id).
Proof.
  unfold Batch.read_step.
  apply preserves_bind; [apply _ | apply preserves_gets; apply _ |]. intros n.
  apply preserves_bind; [apply _ | |intros _].
  { case_match; [apply rollover_batch_handles | apply preserves_ret; apply _]. }
  apply preserves_bind; [apply _ | apply copy_block_batch_handles |]. intros _.
  apply preserves_bind; [apply _ | apply preserves_gets; apply _ |]. intros n'.
  by apply assign_batch_handles.
Qed.

Lemma file_step_batch_handles input_file H :
  preserves (keeps (batch_handles H)) (file_step input_file).
Proof.
  intros f (Hwf & Hout & Hd).
  unfold Batch.file_step. unfold bind at 1.
  destruct (Batch.lift (Api.open input_file ModeR) f) as [r f1] eqn:Ho.
  apply lift_eq in Ho as [Ho Hv].
  apply open_handles in Ho as [[[e ->] Hw]|(-> & Hh & Hn & _)]; simpl.
  { unfold batch_handles. by rewrite Hw, Hv. }
  set (h := next_handle (Batch.world f)) in *.
  assert (batch_handles (<[h := input_file]> H) f1) as Hinv1.
  { unfold batch_handles, handles_wf. rewrite Hv, Hh, Hn. split; [|split; [lia|]].
    - intros h' p [[-> _]|[_ Hp]]%lookup_insert_Some; [lia|]. apply Hwf in Hp. lia.
    - rewrite delete_insert_ne by (subst h; lia). by rewrite Hd. }
  unfold try_finally.
  match goal with |- context [bind ?m ?k f1] =>
    assert (preserves (keeps (batch_handles (<[h := input_file]> H))) (bind m k)) as Hbody end.
  { apply preserves_bind; [apply _ | |intros ids].
    - apply lift_batch_handles, get_read_ids_same_handles.
    - apply preserves_for_each; try apply _. intros x. apply read_step_batch_handles. }
  specialize (Hbody f1 Hinv1).
  destruct (bind _ _ f1) as [r2 f2]. simpl in Hbody.
  destruct Hbody as (Hwf2 & Hout2 & Hd2).
  unfold Batch.lift, Api.close, modify. simpl.
  unfold batch_handles, handles_wf. simpl. split; [|split; [done|]].
  - intros h' p [_ Hp]%lookup_delete_Some. by apply (Hwf2 h' p).
  - rewrite delete_delete, Hd2, delete_insert_eq. apply delete_id.
    rewrite <- Hd. rewrite lookup_delete_ne by (subst h; lia).
    by apply handles_wf_fresh.
Qed.

Lemma guarded_loop_handles file_list H f :
  batch_handles H f ->
  handles (Batch.world (snd (Batch.guarded_loop output_folder filename_base batch_size file_list f))) = H.
Proof.
  intros Hinv. unfold Batch.guarded_loop, try_finally.
  match goal with |- context [try_except ?m ?k f] =>
    assert (preserves (keeps (batch_handles H)) (try_except m k)) as Hbody end.
  { apply preserves_try_except; [apply _ | |intros e; apply preserves_raise; apply _].
    apply preserves_for_each; try apply _. intros x. apply file_step_batch_handles. }
  specialize (Hbody f Hinv). destruct (try_except _ _ f) as [r f1]. simpl in Hbody.
  destruct Hbody as (_ & _ & Hd).
  unfold bind, gets, Batch.lift, Api.close, modify. simpl. exact Hd.
Qed.

Lemma repackage_handles file_list s :
  handles_wf s ->
  handles (snd (Batch.repackage_multi_to_multi output_folder filename_base batch_size file_list s))
  = handles s.
Proof.
  intros Hwf. unfold Batch.repackage_multi_to_multi.
  destruct (Api.open _ ModeA s) as [r s1] eqn:Ho.
  apply open_handles in Ho as [[[e ->] ->]|(-> & Hh & Hn & _)]; [done|].
  match goal with |- context [Batch.guarded_loop _ _ _ _ ?f] =>
    pose proof (guarded_loop_handles file_list (handles s) f) as Hg end.
  destruct (Batch.guarded_loop _ _ _ _ _) as [r f1]. simpl in *. apply Hg.
  unfold batch_handles, handles_wf. simpl. rewrite Hh, Hn. split; [|split; [lia|]].
  - intros h' p [[-> _]|[_ Hp]]%lookup_insert_Some; [lia|]. apply Hwf in Hp. lia.
  - rewrite delete_insert_eq. apply delete_id. by apply handles_wf_fresh.
Qed.

(** C8.  Whatever the inputs are and whichever way the function is left
    (it returns, or an exception leaves it), no handle is open after a
    batch-mode run that started with none open: the handle of the current
    output is closed, and so is every input handle. *)
Theorem output_handle_closed (file_list : list string) (files : gmap string file) :
  handles (snd (Batch.repackage_multi_to_multi output_folder filename_base batch_size
                  file_list (init_state files))) = ∅.
Proof. apply (repackage_handles file_list (init_state files)). intros h p. by simpl. Qed.

End BatchHandles.

(** ** The copied read *)

(** C6.  When the per-read copy succeeds, the read in the destination has
    the groups of the source read, each with the same content and no
    other, and the same [run_id]; the source is as it was. *)
Theorem copy_read_round_trip src read_id dst s s' :
  copy_read src read_id dst s = (Ok tt, s') ->
  exists cs cd' r r',
    lookup_container s src = Some cs /\ cs !! read_id = Some r
    /\ lookup_container s' src = Some cs
    /\ lookup_container s' dst = Some cd' /\ cd' !! read_id = Some r'
    /\ (forall name b, groups r !! name = Some b -> groups r' !! name = Some b)
    /\ groups r' = groups r
    /\ run_id r' = run_id r /\ is_Some (run_id r).
Proof.
  intros (ps & pd & cs & cd & run & g & Hhs & Hhd & Hps & Hrs & Hpd & Hrd & ->)%copy_read_ok.
  assert (ps ≠ pd) as Hne by (intros ->; congruence).
  exists cs, (<[read_id := Read (Some run) g]> cd), (Read (Some run) g), (Read (Some run) g).
  split; [apply lookup_container_Some; by eauto|]. split; [done|].
  split; [apply lookup_container_Some; exists ps; simpl; by rewrite lookup_insert_ne|].
  split; [apply lookup_container_Some; exists pd; simpl; by rewrite lookup_insert_eq|].
  split; [apply lookup_insert_eq|]. simpl. by eauto.
Qed.

Lemma copy_read_round_trip_witness :
  let s := two_open {[ "r1" := example_read "run7" ]} ∅ in
  exists cs cd' r r',
    lookup_container s 0%nat = Some cs /\ cs !! "r1" = Some r
    /\ lookup_container (snd (copy_read 0%nat "r1" 1%nat s)) 0%nat = Some cs
    /\ lookup_container (snd (copy_read 0%nat "r1" 1%nat s)) 1%nat = Some cd'
    /\ cd' !! "r1" = Some r'
    /\ (forall name b, groups r !! name = Some b -> groups r' !! name = Some b)
    /\ groups r' = groups r
    /\ run_id r' = run_id r /\ is_Some (run_id r).
Proof.
  intros s.
  apply (copy_read_round_trip 0%nat "r1" 1%nat s (snd (copy_read 0%nat "r1" 1%nat s))).
  vm_compute. reflexivity.
Defined.


(** ** A read that the destination already holds *)

Lemma elem_of_read_ids (c : gmap string read) read_id :
  read_id ∈ (map_to_list c).*1 <-> is_Some (c !! read_id).
Proof.
  rewrite list_elem_of_fmap. split.
  - intros [[k r] [-> Hk%elem_of_map_to_list]]. by eauto.
  - intros [r Hr]. exists (read_id, r). split; [done|]. by apply elem_of_map_to_list.
Qed.

(** Lines 60-70 in closed form. *)
Lemma binning_read_step_eval multi_f5 binned_multi_f5 output_file read_id s :
  Binning.read_step multi_f5 binned_multi_f5 output_file read_id s
  = match lookup_container s binned_multi_f5 with
    | None => (Raise IOError, s)
    | Some cd =>
        match cd !! read_id with
        | Some _ => (Ok tt, s)
        | None =>
            match copy_read multi_f5 read_id binned_multi_f5 s with
            | (Ok _, s') => (Ok tt, s')
            | (Raise e, s') => logger_error (FailedAddSingleRead e read_id output_file) s'
            end
        end
    end.
Proof.
  unfold Binning.read_step, bind. rewrite get_read_ids_eval.
  destruct (lookup_container s binned_multi_f5) as [cd|]; [|done].
  destruct (cd !! read_id) as [r|] eqn:Hr.
  - rewrite bool_decide_eq_true_2; [done|]. apply elem_of_read_ids. by eauto.
  - rewrite bool_decide_eq_false_2.
    + unfold try_except. by destruct (copy_read _ _ _ s) as [[[]|e] s'].
    + rewrite elem_of_read_ids, Hr. by intros [? ?].
Qed.

(** In the label-binning path a read that the destination holds is
    skipped: nothing is written and nothing is logged. *)
Lemma binning_read_step_skip multi_f5 binned_multi_f5 output_file read_id s cd :
  lookup_container s binned_multi_f5 = Some cd ->
  is_Some (cd !! read_id) ->
  Binning.read_step multi_f5 binned_multi_f5 output_file read_id s = (Ok tt, s).
Proof.
  intros Hcd [r Hr]. by rewrite binning_read_step_eval, Hcd, Hr.
Qed.

(** C2, at an output folder that holds the read already.  The binning path
    finds the read in [out/A/a.fast5] and leaves the world as it was, the
    log empty.  The batch path asks the destination nothing: it calls
    [create_read] on [out/batch_0.fast5], which refuses the second read of
    that id, and the refusal arrives in the handler of line 110 and is
    logged as an error. *)
Theorem batch_existing_read_logged :
  (let '(r, s') := Binning.multi_to_adapter_multi "in/a.fast5" "out" {[ "r1" := "A" ]}
                     (init_state rerun_files) in
   r = Ok ["a.fast5"; "a.fast5"] /\ fs s' = rerun_files /\ log s' = [])
  /\ (let '(r, s') := Batch.repackage_multi_to_multi "out" "batch" 4000 ["in/a.fast5"]
                        (init_state rerun_files) in
      r = Ok tt /\ fs s' = rerun_files
      /\ log s' = [FailedWriteMultiRead ValueError "out/batch_0.fast5"]).
Proof. split; vm_compute; done. Qed.


(** ** Relations on the world kept by the two routines *)

Global Instance on_world_refl R `{!Reflexive R} : Reflexive (on_world R).
Proof. intros f. unfold on_world. reflexivity. Qed.

Global Instance on_world_trans R `{!Transitive R} : Transitive (on_world R).
Proof. intros a b c Hab Hbc. unfold on_world in *. by etransitivity. Qed.

Lemma lift_on_world {A} (R : relation state) (m : M state A) :
  preserves R m -> preserves (on_world R) (Batch.lift m).
Proof.
  intros Hm f. unfold on_world, Batch.lift. specialize (Hm (Batch.world f)).
  by destruct (m (Batch.world f)).
Qed.

Lemma assign_on_world (R : relation state) `{!Reflexive R} g :
  preserves (on_world R) (Batch.assign g).
Proof. intros f. unfold on_world. simpl. reflexivity. Qed.

Lemma with_open_eval {A} path m (body : handle -> M state A) s :
  Api.with_open path m body s
  = match Api.open path m s with
    | (Raise e, s1) => (Raise e, s1)
    | (Ok h, s1) =>
        let '(r, s2) := body h s1 in
        (r, State (fs s2) (delete h (handles s2)) (next_handle s2) (log s2))
    end.
Proof.
  unfold Api.with_open, bind. destruct (Api.open path m s) as [[h|e] s1]; [|done].
  unfold try_finally. by destruct (body h s1).
Qed.

Lemma with_open_respects {A} (R : relation state) `{!Transitive R} path m
    (body : handle -> M state A) :
  api_respects R -> (forall h, preserves R (body h)) ->
  preserves R (Api.with_open path m body).
Proof.
  intros (Hopen & Hclose & _) Hbody. unfold Api.with_open.
  apply preserves_bind; [apply _ | apply Hopen |]. intros h.
  apply preserves_try_finally; [apply _ | apply Hbody | apply Hclose].
Qed.

Section Respects.
Context (R : relation state) `{!Reflexive R, !Transitive R}.
Hypothesis HR : api_respects R.

Lemma binning_read_step_respects multi_f5 binned_multi_f5 output_file read_id :
  preserves R (Binning.read_step multi_f5 binned_multi_f5 output_file read_id).
Proof.
  destruct HR as (_ & _ & Hids & Hcopy & Hlog). unfold Binning.read_step.
  apply preserves_bind; [apply _ | apply Hids |]. intros present.
  case_match; [apply preserves_ret; apply _|].
  apply preserves_try_except; [apply _ | apply Hcopy | intros e; apply Hlog].
Qed.

Lemma group_step_respects multi_f5 input_file output_folder entry :
  preserves R (Binning.group_step multi_f5 input_file output_folder entry).
Proof.
  unfold Binning.group_step.
  apply preserves_try_except; [apply _ | | intros e; apply HR].
  apply with_open_respects; [apply _ | exact HR |]. intros h.
  apply preserves_for_each; try apply _. intros x. apply binning_read_step_respects.
Qed.

Lemma multi_to_adapter_multi_respects input_file output_folder binning :
  preserves R (Binning.multi_to_adapter_multi input_file output_folder binning).
Proof.
  unfold Binning.multi_to_adapter_multi, Binning.body.
  apply preserves_try_except; [apply _ | |intros e].
  - apply with_open_respects; [apply _ | exact HR |]. intros h.
    apply preserves_bind; [apply _ | apply HR |]. intros ids.
    apply preserves_bind; [apply _ | | intros _; apply preserves_ret; apply _].
    apply preserves_for_each; try apply _. intros x. apply group_step_respects.
  - apply preserves_bind; [apply _ | apply HR | intros _; apply preserves_ret; apply _].
Qed.

Variables (output_folder filename_base : string) (batch_size : Z).

Lemma rollover_respects :
  preserves (on_world R) (Batch.rollover output_folder filename_base).
Proof.
  destruct HR as (Hopen & Hclose & _). unfold Batch.rollover.
  repeat first
    [ apply preserves_bind; [apply _ | | intros ?]
    | apply preserves_gets; apply _
    | apply assign_on_world; apply _
    | apply lift_on_world; first [apply Hopen | apply Hclose] ].
Qed.

Lemma batch_read_step_respects multi_f5 read_id :
  preserves (on_world R)
    (Batch.read_step output_folder filename_base batch_size multi_f5 read_id).
Proof.
  destruct HR as (_ & _ & _ & Hcopy & Hlog). unfold Batch.read_step.
  apply preserves_bind; [apply _ | apply preserves_gets; apply _ |]. intros n.
  apply preserves_bind; [apply _ | |intros _].
  { case_match; [apply rollover_respects | apply preserves_ret; apply _]. }
  apply preserves_bind; [apply _ | |intros _].
  { apply preserves_try_except; [apply _ | |intros e].
    - apply preserves_bind; [apply _ | apply preserves_gets; apply _ |]. intros out.
      apply lift_on_world, Hcopy.
    - apply preserves_bind; [apply _ | apply preserves_gets; apply _ |]. intros path.
      apply lift_on_world, Hlog. }
  apply preserves_bind; [apply _ | apply preserves_gets; apply _ |]. intros n'.
  apply assign_on_world; apply _.
Qed.

Lemma file_step_respects input_file :
  preserves (on_world R)
    (Batch.file_step output_folder filename_base batch_size input_file).
Proof.
  destruct HR as (Hopen & Hclose & Hids & _). unfold Batch.file_step.
  apply preserves_bind; [apply _ | apply lift_on_world, Hopen |]. intros h.
  apply preserves_try_finally; [apply _ | | apply lift_on_world, Hclose].
  apply preserves_bind; [apply _ | apply lift_on_world, Hids |]. intros ids.
  apply preserves_for_each; try apply _. intros x. apply batch_read_step_respects.
Qed.

Lemma guarded_loop_respects file_list :
  preserves (on_world R)
    (Batch.guarded_loop output_folder filename_base batch_size file_list).
Proof.
  destruct HR as (_ & Hclose & _). unfold Batch.guarded_loop.
  apply preserves_try_finally; [apply _ | |].
  - apply preserves_try_except; [apply _ | |intros e; apply preserves_raise; apply _].
    apply preserves_for_each; try apply _. intros x. apply file_step_respects.
  - apply preserves_bind; [apply _ | apply preserves_gets; apply _ |]. intros out.
    apply lift_on_world, Hclose.
Qed.

Lemma repackage_respects file_list :
  preserves R
    (Batch.repackage_multi_to_multi output_folder filename_base batch_size file_list).
Proof.
  intros s. unfold Batch.repackage_multi_to_multi.
  pose proof (proj1 HR (Batch.output_path output_folder filename_base 0) ModeA s) as Ho.
  destruct (Api.open _ ModeA s) as [[h|e] s1]; simpl in Ho; [|done].
  match goal with |- context [Batch.guarded_loop _ _ _ _ ?f] =>
    pose proof (guarded_loop_respects file_list f) as Hg end.
  unfold on_world in Hg. destruct (Batch.guarded_loop _ _ _ _ _) as [r f1].
  simpl in *. by etransitivity.
Qed.

End Respects.

(** ** The world only grows *)

Global Instance grows_refl : Reflexive grows.
Proof. intros s. split; [done|]. split; [by eauto|done]. Qed.

Global Instance grows_trans : Transitive grows.
Proof.
  intros a b c (H1 & H2 & H3) (H4 & H5 & H6). split; [by auto|]. split.
  - intros p x Hx. apply H2 in Hx as (y & Hy & Hxy).
    apply H5 in Hy as (z & Hz & Hyz). exists z. split; [done|]. by etransitivity.
  - by etransitivity.
Qed.

Lemma grows_api : api_respects grows.
Proof.
  split; [|split; [|split; [|split]]].
  - intros path m s. destruct (Api.open path m s) as [r s'] eqn:Ho.
    rewrite open_eval in Ho. simpl in Ho. simpl.
    destruct (fs s !! path) as [[|c]|] eqn:Hp; [| |destruct m]; simplify_eq; try reflexivity.
    + split; [done|]. split; [by eauto|done].
    + split; [|split; [|done]]; simpl.
      * intros p Hc. rewrite lookup_insert_ne; [done | congruence].
      * intros p c Hc. rewrite lookup_insert_ne; [by eauto | congruence].
  - intros h s. simpl. split; [done|]. split; [by eauto|done].
  - intros h s. rewrite get_read_ids_eval. reflexivity.
  - intros src read_id dst s.
    destruct (copy_read_cases src read_id dst s)
      as [(ps & pd & cs & cd & run & g & Hhs & Hhd & Hps & Hrs & Hpd & Hrd & ->)|[e ->]];
      [|reflexivity].
    split; [|split; [|done]]; simpl.
    + intros p Hc. rewrite lookup_insert_ne; [done | congruence].
    + intros p c Hc. destruct (decide (p = pd)) as [->|Hne].
      * rewrite lookup_insert_eq. simplify_eq. eexists. split; [done|].
        by apply insert_subseteq.
      * rewrite lookup_insert_ne by done. by eauto.
  - intros x s. simpl. split; [done|]. split; [by eauto|]. by apply prefix_app_r.
Qed.


(** ** Failures in binning mode *)

Lemma for_each_app {S A} (l1 l2 : list A) (body : A -> M S unit) s :
  for_each (l1 ++ l2) body s
  = match for_each l1 body s with
    | (Ok _, s1) => for_each l2 body s1
    | (Raise e, s1) => (Raise e, s1)
    end.
Proof.
  revert s. induction l1 as [|x l1 IH]; intros s; simpl; [done|].
  unfold bind. destruct (body x s) as [[[]|e] s1]; [apply IH | done].
Qed.

(** A loop whose body never raises never raises. *)
Lemma for_each_total {S A} (l : list A) (body : A -> M S unit) :
  (forall x s, fst (body x s) = Ok tt) -> forall s, fst (for_each l body s) = Ok tt.
Proof.
  intros Hb. induction l as [|x l IH]; intros s; simpl; [done|].
  unfold bind. specialize (Hb x s). destruct (body x s) as [[[]|e] s1]; simpl in *; [apply IH | done].
Qed.

(** The handler of line 71 ends every failure of the block of one label. *)
Lemma group_step_total multi_f5 input_file output_folder entry s :
  fst (Binning.group_step multi_f5 input_file output_folder entry s) = Ok tt.
Proof.
  unfold Binning.group_step, try_except.
  by destruct (Api.with_open _ _ _ s) as [[[]|e] s1].
Qed.


Lemma multi_to_adapter_multi_unopenable input_file output_folder binning s :
  fs s !! input_file = None \/ fs s !! input_file = Some Corrupt ->
  Binning.multi_to_adapter_multi input_file output_folder binning s
  = (Ok [Text.basename input_file],
     snd (logger_error (FailedCopyFilesFrom IOError input_file) s)).
Proof.
  intros Hc. unfold Binning.multi_to_adapter_multi, Binning.body, try_except.
  rewrite with_open_eval, open_eval. by destruct Hc as [-> | ->].
Qed.




(** ** Batch mode: the paths that the loop leaves alone *)

Section BatchUntouched.
Variables (output_folder filename_base : string) (batch_size : Z).
Variable files : gmap string file.

Local Abbreviation out := (Batch.output_path output_folder filename_base).
Local Abbreviation inv := (batch_untouched output_folder filename_base files).

Lemma rollover_untouched :
  preserves (keeps inv) (Batch.rollover output_folder filename_base).
Proof.
  intros f (Hwf & Hlt & Hout & Hfs).
  unfold Batch.rollover, bind, gets, Batch.assign, modify, Batch.lift, Api.close. simpl.
  set (w1 := State _ (delete _ _) _ _).
  assert (handles_wf w1) as Hwf1.
  { intros h p. subst w1. simpl. intros [_ Hh]%lookup_delete_Some. by apply (Hwf h p). }
  destruct (Api.open _ ModeA w1) as [r w2] eqn:Ho. simpl.
  pose proof Ho as Ho'. rewrite open_eval in Ho'. simpl in Ho'.
  apply open_handles in Ho as [[[e ->] ->]|(-> & Hh & Hn & _)]; simpl.
  - unfold batch_untouched. simpl. split; [done|]. split; [done|]. split; [|done].
    intros p. by rewrite lookup_delete_eq.
  - unfold batch_untouched, handles_wf. simpl. rewrite Hh, Hn. simpl.
    split; [|split; [lia|split]].
    + intros h p [[<- _]|[_ Hp]]%lookup_insert_Some; [lia|].
      apply lookup_delete_Some in Hp as [_ Hp]. apply Hwf in Hp. lia.
    + intros p. rewrite lookup_insert_eq. intros [= <-]. by eauto.
    + intros p Hp. rewrite <- (Hfs p Hp).
      destruct (fs (Batch.world f) !! out _) as [[|c]|] eqn:Hc; simplify_eq; try done.
      simpl. apply lookup_insert_ne. intros Heq. by apply (Hp _ (eq_sym Heq)).
Qed.

Lemma copy_block_untouched multi_f5 read_id :
  preserves (keeps inv)
    (try_except
       (o <- gets (fun f => Batch.output_multi_f5 (Batch.vars f)) ;;
        Batch.lift (copy_read multi_f5 read_id o))
       (fun e =>
          path <- gets (fun f => Batch.output_file (Batch.vars f)) ;;
          Batch.lift (logger_error (FailedWriteMultiRead e path)))).
Proof.
  intros f (Hwf & Hlt & Hout & Hfs).
  unfold try_except, bind, gets, Batch.lift.
  destruct (copy_read_cases multi_f5 read_id (Batch.output_multi_f5 (Batch.vars f))
              (Batch.world f))
    as [(ps & pd & cs & cd & run & g & Hhs & Hhd & Hps & Hrs & Hpd & Hrd & ->)|[e ->]].
  - simpl. unfold batch_untouched. simpl. split; [done|]. split; [done|]. split; [done|].
    intros p Hp. rewrite <- (Hfs p Hp). apply lookup_insert_ne.
    destruct (Hout pd Hhd) as [n ->]. intros Heq. by apply (Hp n).
  - simpl. done.
Qed.

Lemma read_step_untouched multi_f5 read_id :
  preserves (keeps inv)
    (Batch.read_step output_folder filename_base batch_size multi_f5 read_id).
Proof.
  unfold Batch.read_step.
  apply preserves_bind; [apply _ | apply preserves_gets; apply _ |]. intros n.
  apply preserves_bind; [apply _ | |intros _].
  { case_match; [apply rollover_untouched | apply preserves_ret; apply _]. }
  apply preserves_bind; [apply _ | apply copy_block_untouched |]. intros _.
  apply preserves_bind; [apply _ | apply preserves_gets; apply _ |]. intros n'.
  intros f Hinv. exact Hinv.
Qed.

Lemma file_step_untouched input_file :
  preserves (keeps inv)
    (Batch.file_step output_folder filename_base batch_size input_file).
Proof.
  intros f Hinv. pose proof Hinv as (Hwf & Hlt & Hout & Hfs).
  unfold Batch.file_step. unfold bind at 1.
  destruct (Batch.lift (Api.open input_file ModeR) f) as [r f1] eqn:Ho.
  apply lift_eq in Ho as [Ho Hv].
  pose proof Ho as Ho'. rewrite open_eval in Ho'. simpl in Ho'.
  apply open_handles in Ho as [[[e ->] Hw]|(-> & Hh & Hn & _)]; simpl.
  { unfold batch_untouched. rewrite Hw, Hv. exact Hinv. }
  assert (fs (Batch.world f1) = fs (Batch.world f)) as Hfs1.
  { destruct (fs (Batch.world f) !! input_file) as [[|c]|]; try discriminate.
    injection Ho' as Heq. by rewrite <- Heq. }
  set (h := next_handle (Batch.world f)) in *.
  assert (inv f1) as Hinv1.
  { unfold batch_untouched, handles_wf. rewrite Hv, Hh, Hn, Hfs1.
    split; [|split; [lia|split; [|done]]].
    - intros h' p [[Heq _]|[_ Hp]]%lookup_insert_Some; [rewrite <- Heq; unfold h; lia|].
      apply Hwf in Hp. lia.
    - intros p. rewrite lookup_insert_ne by (unfold h; lia). apply Hout. }
  unfold try_finally.
  match goal with |- context [bind ?m ?k f1] =>
    assert (preserves (keeps inv) (bind m k)) as Hbody end.
  { apply preserves_bind; [apply _ | |intros ids].
    - intros f2 Hf2. unfold Batch.lift. rewrite get_read_ids_eval. by destruct f2.
    - apply preserves_for_each; try apply _. intros x. apply read_step_untouched. }
  specialize (Hbody f1 Hinv1).
  destruct (bind _ _ f1) as [r2 f2]. simpl in Hbody.
  destruct Hbody as (Hwf2 & Hlt2 & Hout2 & Hfs2).
  unfold Batch.lift, Api.close, modify. simpl.
  unfold batch_untouched, handles_wf. simpl. split; [|split; [done|split; [|done]]].
  - intros h' p [_ Hp]%lookup_delete_Some. by apply (Hwf2 h' p).
  - intros p [_ Hp]%lookup_delete_Some. by apply Hout2.
Qed.

End BatchUntouched.


(** ** An input that cannot be opened, in batch mode *)

Section BatchFailure.
Variables (output_folder filename_base : string) (batch_size : Z).

Local Abbreviation out := (Batch.output_path output_folder filename_base).
Local Abbreviation rollover := (Batch.rollover output_folder filename_base).
Local Abbreviation read_step := (Batch.read_step output_folder filename_base batch_size).
Local Abbreviation file_step := (Batch.file_step output_folder filename_base batch_size).
Local Abbreviation guarded_loop := (Batch.guarded_loop output_folder filename_base batch_size).
Local Abbreviation repackage := (Batch.repackage_multi_to_multi output_folder filename_base batch_size).







End BatchFailure.




(** ** The first output of a batch-mode run *)

Section FirstOutput.
Variables (output_folder filename_base : string) (batch_size : Z).

Local Abbreviation file_step := (Batch.file_step output_folder filename_base batch_size).
Local Abbreviation guarded_loop := (Batch.guarded_loop output_folder filename_base batch_size).
Local Abbreviation repackage := (Batch.repackage_multi_to_multi output_folder filename_base batch_size).
Local Abbreviation out0 := (Batch.output_path output_folder filename_base 0).




End FirstOutput.



(** ** The grouping of the reads by label *)

Lemma elem_of_binned_append binned grp read_id g rs r :
  (g, rs) ∈ Binning.binned_append binned grp read_id -> r ∈ rs ->
  (exists rs0, (g, rs0) ∈ binned /\ r ∈ rs0) \/ (g = grp /\ r = read_id).
Proof.
  induction binned as [|[g0 ids] rest IH]; simpl.
  - intros [= -> ->]%list_elem_of_singleton ->%list_elem_of_singleton. by right.
  - case_decide as Hg.
    + subst g0. intros [[= -> ->]|Hin]%elem_of_cons Hr.
      * apply elem_of_app in Hr as [Hr| ->%list_elem_of_singleton].
        -- left. exists ids. split; [left | done].
        -- by right.
      * left. exists rs. split; [by right | done].
    + intros [[= -> ->]|Hin]%elem_of_cons Hr.
      * left. exists ids. split; [left | done].
      * destruct (IH Hin Hr) as [(rs0 & H0 & Hr0)|?]; [|by right].
        left. exists rs0. split; [by right | done].
Qed.

Lemma binned_append_keeps binned grp read_id g rs r :
  (g, rs) ∈ binned -> r ∈ rs ->
  exists rs', (g, rs') ∈ Binning.binned_append binned grp read_id /\ r ∈ rs'.
Proof.
  induction binned as [|[g0 ids] rest IH]; simpl; [by intros ?%elem_of_nil|].
  intros [[= -> ->]|Hin]%elem_of_cons Hr.
  - case_decide.
    + exists (ids ++ [read_id])%list. split; [left | apply elem_of_app; by left].
    + exists ids. split; [left | done].
  - case_decide.
    + exists rs. split; [by right | done].
    + destruct (IH Hin Hr) as (rs' & H1 & H2). exists rs'. split; [by right | done].
Qed.

Lemma binned_append_adds binned grp read_id :
  exists rs, (grp, rs) ∈ Binning.binned_append binned grp read_id /\ read_id ∈ rs.
Proof.
  induction binned as [|[g0 ids] rest IH]; simpl.
  - exists [read_id]. split; [left | left].
  - case_decide as Hg.
    + subst g0. exists (ids ++ [read_id])%list. split; [left|]. apply elem_of_app. right. left.
    + destruct IH as (rs & H1 & H2). exists rs. split; [by right | done].
Qed.

(** Every read of every group is a read of the input that the table sends
    to that group. *)
Lemma bin_reads_sound binning read_ids g rs r :
  (g, rs) ∈ Binning.bin_reads binning read_ids -> r ∈ rs ->
  r ∈ read_ids /\ binning !! r = Some g.
Proof.
  unfold Binning.bin_reads.
  cut (forall acc,
         (forall g rs r, (g, rs) ∈ acc -> r ∈ rs -> r ∈ read_ids /\ binning !! r = Some g) ->
         forall l, (forall x, x ∈ l -> x ∈ read_ids) ->
         forall g rs r, (g, rs) ∈ fold_left (Binning.bin_step binning) l acc -> r ∈ rs ->
                        r ∈ read_ids /\ binning !! r = Some g).
  { intros Hcut. apply (Hcut [] ltac:(by intros ? ? ? ?%elem_of_nil) read_ids). done. }
  intros acc Hacc l. revert acc Hacc.
  induction l as [|x l IH]; intros acc Hacc Hl g' rs' r'; simpl; [by apply Hacc|].
  apply IH; [|intros y Hy; apply Hl; by right].
  intros g0 rs0 r0. unfold Binning.bin_step.
  destruct (binning !! x) as [grp|] eqn:Hx; [|by apply Hacc].
  intros Hin Hr. destruct (elem_of_binned_append _ _ _ _ _ _ Hin Hr) as [(rs1 & H1 & H2)|[-> ->]].
  - by apply (Hacc g0 rs1).
  - split; [apply Hl; left | done].
Qed.

(** Every read of the input that the table names is in the group of its
    label. *)
Lemma bin_reads_complete binning read_ids r g :
  r ∈ read_ids -> binning !! r = Some g ->
  exists rs, (g, rs) ∈ Binning.bin_reads binning read_ids /\ r ∈ rs.
Proof.
  unfold Binning.bin_reads. generalize (@nil (string * list string)).
  induction read_ids as [|x l IH]; intros acc; [by intros ?%elem_of_nil|].
  assert (forall l acc, (exists rs, (g, rs) ∈ acc /\ r ∈ rs) ->
            exists rs, (g, rs) ∈ fold_left (Binning.bin_step binning) l acc /\ r ∈ rs) as Hkeep.
  { clear. intros l. induction l as [|y l IH]; intros acc Hacc; simpl; [done|].
    apply IH. destruct Hacc as (rs & H1 & H2). unfold Binning.bin_step.
    destruct (binning !! y); [|by eauto]. by eapply binned_append_keeps. }
  intros [->|Hin]%elem_of_cons Hb; simpl.
  - apply Hkeep. unfold Binning.bin_step. rewrite Hb. apply binned_append_adds.
  - by apply IH.
Qed.

(** ** The path of a label, written out *)

Lemma string_app_cons a s t : String a s +:+ t = String a (s +:+ t).
Proof. reflexivity. Qed.








(** * Further properties *)


(** ** What binning mode writes, and where *)

Global Instance writes_within_refl P : Reflexive (writes_within P).
Proof. intros s p r Hp. by left. Qed.

Global Instance writes_within_trans P : Transitive (writes_within P).
Proof.
  intros a b c Hab Hbc p r Hp. destruct (Hbc p r Hp) as [Hb|?]; [|by right].
  by apply Hab.
Qed.

Global Instance writes_through_refl dst path P : Reflexive (writes_through dst path P).
Proof. intros s Hh. split; [done | reflexivity]. Qed.

Global Instance writes_through_trans dst path P : Transitive (writes_through dst path P).
Proof.
  intros a b c Hab Hbc Ha. destruct (Hab Ha) as [Hb Hw1]. destruct (Hbc Hb) as [Hc Hw2].
  split; [done | by etransitivity].
Qed.

Lemma preserves_for_each_in {S A} (R : relation S) `{!Reflexive R, !Transitive R}
    (l : list A) (body : A -> M S unit) :
  (forall x, x ∈ l -> preserves R (body x)) -> preserves R (for_each l body).
Proof.
  induction l as [|x l IH]; intros Hb; simpl; [apply preserves_ret; apply _|].
  apply preserves_bind; [apply _ | apply Hb; left | intros _].
  apply IH. intros y Hy. apply Hb. by right.
Qed.

(** The four ways in which lines 60-70 end. *)
Lemma binning_read_step_cases multi_f5 dst path output_file read_id s :
  handles s !! dst = Some path ->
  let '(r, s') := Binning.read_step multi_f5 dst output_file read_id s in
  ((exists e, r = Raise e) /\ s' = s)
  \/ (r = Ok tt /\ s' = s /\ present (fs s) path read_id)
  \/ (r = Ok tt /\ exists cd rd,
        fs s !! path = Some (Container cd) /\ cd !! read_id = None
        /\ s' = set_fs (<[path := Container (<[read_id := rd]> cd)]> (fs s)) s)
  \/ (r = Ok tt /\ exists e,
        s' = snd (logger_error (FailedAddSingleRead e read_id output_file) s)).
Proof.
  intros Hh. rewrite binning_read_step_eval.
  destruct (lookup_container s dst) as [cd|] eqn:Hcd; [|left; by eauto].
  apply lookup_container_Some in Hcd as (p & Hp & Hfs). simplify_eq.
  destruct (cd !! read_id) as [rd|] eqn:Hrd.
  { right; left. repeat split; try done. exists cd. by eauto. }
  destruct (copy_read_cases multi_f5 read_id dst s)
    as [(ps & pd & cs & cd' & run & g & Hhs & Hhd & Hps & Hrs & Hpd & Hrd' & ->)|[e ->]].
  - simplify_eq. right; right; left. split; [done|]. by eauto 10.
  - right; right; right. split; [done|]. by eauto.
Qed.

Lemma present_insert files path cd read_id rd p r :
  files !! path = Some (Container cd) ->
  present (<[path := Container (<[read_id := rd]> cd)]> files) p r ->
  present files p r \/ (p = path /\ r = read_id).
Proof.
  intros Hcd (c & Hc & Hr). destruct (decide (p = path)) as [->|Hne].
  - rewrite lookup_insert_eq in Hc. simplify_eq.
    destruct (decide (r = read_id)) as [->|Hr']; [by right|].
    rewrite lookup_insert_ne in Hr by done. left. by exists cd.
  - rewrite lookup_insert_ne in Hc by done. left. by exists c.
Qed.

Lemma binning_read_step_writes multi_f5 dst path output_file read_id
    (P : string -> string -> Prop) :
  P path read_id ->
  preserves (writes_through dst path P)
    (Binning.read_step multi_f5 dst output_file read_id).
Proof.
  intros HP s Hh.
  pose proof (binning_read_step_cases multi_f5 dst path output_file read_id s Hh) as Hc.
  destruct (Binning.read_step _ _ _ _ s) as [r s']. simpl.
  destruct Hc as [[_ ->]|[(_ & -> & _)|[(_ & cd & rd & Hcd & Hrd & ->)|(_ & e & ->)]]].
  - split; [done | reflexivity].
  - split; [done | reflexivity].
  - split; [done|]. intros p r' Hp. simpl in Hp.
    apply (present_insert _ _ _ _ _ _ _ Hcd) in Hp as [?|[-> ->]]; [by left | by right].
  - split; [done|]. intros p r' Hp. by left.
Qed.

Lemma binning_read_step_same_handles multi_f5 dst output_file read_id :
  preserves same_handles (Binning.read_step multi_f5 dst output_file read_id).
Proof.
  unfold Binning.read_step.
  apply preserves_bind; [apply _ | apply get_read_ids_same_handles |]. intros ids.
  case_match; [apply preserves_ret; apply _|].
  apply preserves_try_except; [apply _ | apply copy_read_same_handles |].
  intros e. apply logger_error_same_handles.
Qed.

Lemma open_writes_within P path m : preserves (writes_within P) (Api.open path m).
Proof.
  intros s. destruct (Api.open path m s) as [r s'] eqn:Ho.
  rewrite open_eval in Ho. simpl in Ho. simpl.
  destruct (fs s !! path) as [[|c]|] eqn:Hp; [| |destruct m]; simplify_eq; try reflexivity.
  - intros p r Hpr. by left.
  - intros p r (c & Hc & Hr). simpl in Hc. left.
    destruct (decide (p = path)) as [->|Hne].
    + rewrite lookup_insert_eq in Hc. simplify_eq. rewrite lookup_empty in Hr.
      by destruct Hr.
    + rewrite lookup_insert_ne in Hc by done. by exists c.
Qed.

(** The block of one label writes the reads of its group to the path of
    the label and nothing else. *)
Lemma group_step_writes multi_f5 input_file output_folder entry
    (P : string -> string -> Prop) :
  (forall r, r ∈ snd entry ->
     P (Binning.output_path output_folder (fst entry) input_file) r) ->
  preserves (writes_within P)
    (Binning.group_step multi_f5 input_file output_folder entry).
Proof.
  intros HP. unfold Binning.group_step.
  set (path := Binning.output_path output_folder entry.1 input_file) in *.
  apply preserves_try_except; [apply _ | |intros e s; by left].
  intros s. rewrite with_open_eval.
  pose proof (open_writes_within P path ModeA s) as Hw.
  destruct (Api.open path ModeA s) as [r s1] eqn:Ho.
  apply open_handles in Ho as [[[e ->] ->]|(-> & Hh & Hn & _)]; [reflexivity|].
  simpl in Hw.
  pose proof (preserves_for_each_in (writes_through (next_handle s) path P) (snd entry)
                (Binning.read_step multi_f5 (next_handle s) path)) as Hloop.
  specialize (Hloop (fun x Hx => binning_read_step_writes _ _ _ _ _ P (HP x Hx)) s1).
  destruct (for_each _ _ s1) as [r2 s2]. simpl in *.
  destruct Hloop as [_ Hw2]; [rewrite Hh; apply lookup_insert_eq|].
  transitivity s1; [done|]. transitivity s2; [done|]. by left.
Qed.

Lemma copied_or_logged_grows s s' path read_id :
  grows s s' -> copied_or_logged s path read_id -> copied_or_logged s' path read_id.
Proof.
  intros (_ & Hc & [k Hk]) [(c & Hfs & Hr)|[[e He]|[e He]]].
  - left. destruct (Hc path c Hfs) as (c' & Hc' & Hsub). exists c'. split; [done|].
    by eapply lookup_weaken_is_Some.
  - right; left. exists e. rewrite Hk. apply elem_of_app. by left.
  - right; right. exists e. rewrite Hk. apply elem_of_app. by left.
Qed.

Lemma binning_read_step_settles multi_f5 dst path read_id s s' :
  handles s !! dst = Some path ->
  Binning.read_step multi_f5 dst path read_id s = (Ok tt, s') ->
  copied_or_logged s' path read_id.
Proof.
  intros Hh Hs.
  pose proof (binning_read_step_cases multi_f5 dst path path read_id s Hh) as Hc.
  rewrite Hs in Hc.
  destruct Hc as [[[e ?] _]|[(_ & -> & Hp)|[(_ & cd & rd & Hcd & Hrd & ->)|(_ & e & ->)]]].
  - done.
  - by left.
  - left. eexists. simpl. rewrite lookup_insert_eq. split; [done|].
    rewrite lookup_insert_eq. by eauto.
  - right; left. exists e. simpl. apply elem_of_app. right. left.
Qed.

Lemma binning_read_loop_settles multi_f5 dst path read_id rids :
  read_id ∈ rids ->
  forall s s',
    handles s !! dst = Some path ->
    for_each rids (Binning.read_step multi_f5 dst path) s = (Ok tt, s') ->
    copied_or_logged s' path read_id.
Proof.
  induction rids as [|x l IH]; [by intros ?%elem_of_nil|].
  intros Hin s s' Hh. simpl. unfold bind.
  destruct (Binning.read_step multi_f5 dst path x s) as [[[]|e] s1] eqn:Hs; [|done].
  intros Hl.
  destruct (decide (x = read_id)) as [->|Hne].
  - apply (copied_or_logged_grows s1).
    + pose proof (preserves_for_each grows l (Binning.read_step multi_f5 dst path)
                    (binning_read_step_respects grows grows_api _ _ _) s1) as Hg.
      by rewrite Hl in Hg.
    + by eapply binning_read_step_settles.
  - apply elem_of_cons in Hin as [?|Hin]; [congruence|].
    apply (IH Hin s1 s'); [|done].
    pose proof (binning_read_step_same_handles multi_f5 dst path x s) as [Hsame _].
    rewrite Hs in Hsame. simpl in Hsame. by rewrite Hsame.
Qed.

Lemma group_step_settles multi_f5 input_file output_folder entry read_id s :
  read_id ∈ snd entry ->
  copied_or_logged (snd (Binning.group_step multi_f5 input_file output_folder entry s))
    (Binning.output_path output_folder (fst entry) input_file) read_id.
Proof.
  intros Hin. unfold Binning.group_step, try_except.
  set (path := Binning.output_path output_folder entry.1 input_file).
  rewrite with_open_eval.
  destruct (Api.open path ModeA s) as [r s1] eqn:Ho.
  apply open_handles in Ho as [[[e ->] ->]|(-> & Hh & Hn & _)].
  { right; right. exists e. simpl. apply elem_of_app. right. left. }
  destruct (for_each _ _ s1) as [[[]|e] s2] eqn:Hl.
  - simpl. eapply binning_read_loop_settles in Hl; [|done|by rewrite Hh, lookup_insert_eq].
    destruct Hl as [?|[?|?]]; [by left | right; by left | right; by right].
  - right; right. exists e. simpl. apply elem_of_app. right. left.
Qed.

Lemma group_loop_settles multi_f5 input_file output_folder binned grp rids read_id :
  (grp, rids) ∈ binned -> read_id ∈ rids ->
  forall s,
    copied_or_logged
      (snd (for_each binned (Binning.group_step multi_f5 input_file output_folder) s))
      (Binning.output_path output_folder grp input_file) read_id.
Proof.
  intros Hin Hr. induction binned as [|x l IH]; [by apply elem_of_nil in Hin|].
  intros s. simpl. unfold bind.
  pose proof (group_step_total multi_f5 input_file output_folder x s) as Ht.
  destruct (Binning.group_step multi_f5 input_file output_folder x s) as [r s1] eqn:Hs.
  simpl in Ht. subst r.
  apply elem_of_cons in Hin as [<-|Hin]; [|by apply IH].
  apply (copied_or_logged_grows s1).
  - apply (preserves_for_each grows l _ (group_step_respects grows grows_api _ _ _) s1).
  - pose proof (group_step_settles multi_f5 input_file output_folder (grp, rids) read_id s Hr)
      as Hg. by rewrite Hs in Hg.
Qed.

(** The function in closed form, for an input that opens: the handle of
    the input is the next free one, the loop over the labels runs to its
    end, the handle is closed and the two-entry result returned. *)
Lemma multi_to_adapter_multi_eval input_file output_folder binning s c :
  fs s !! input_file = Some (Container c) ->
  let h := next_handle s in
  let s1 := State (fs s) (<[h := input_file]> (handles s)) (S h) (log s) in
  let s2 := snd (for_each (Binning.bin_reads binning (map_to_list c).*1)
                   (Binning.group_step h input_file output_folder) s1) in
  Binning.multi_to_adapter_multi input_file output_folder binning s
  = (Ok [Text.basename input_file; Text.basename input_file],
     State (fs s2) (delete h (handles s2)) (next_handle s2) (log s2)).
Proof.
  intros Hc h s1 s2.
  unfold Binning.multi_to_adapter_multi, Binning.body, try_except.
  rewrite with_open_eval, open_eval, Hc. cbv beta iota zeta. fold h. fold s1.
  unfold bind at 1. rewrite get_read_ids_eval.
  assert (lookup_container s1 h = Some c) as ->.
  { apply lookup_container_Some. exists input_file. simpl. by rewrite lookup_insert_eq. }
  cbv beta iota. unfold bind at 1.
  pose proof (for_each_total (Binning.bin_reads binning (map_to_list c).*1)
                (Binning.group_step h input_file output_folder)
                (group_step_total h input_file output_folder) s1) as Ht.
  subst s2. destruct (for_each _ _ s1) as [r s2]. simpl in Ht. subst r. done.
Qed.




(** The second scenario of the specification, run. *)
Example binning_scenario :
  let '(r, s') := Binning.multi_to_adapter_multi "in/a.fast5" "out" scenario_binning
                    (init_state scenario_binning_files) in
  r = Ok ["a.fast5"; "a.fast5"]
  /\ reads_at (fs s') "out/A/a.fast5" = Some 3%nat
  /\ reads_at (fs s') "out/B/a.fast5" = Some 2%nat
  /\ size (fs s') = 3%nat
  /\ holders (fs s') "r0" = ["out/A/a.fast5"; "in/a.fast5"]
  /\ holders (fs s') "r4" = ["in/a.fast5"]
  /\ log s' = [].
Proof. vm_compute. done. Qed.


(** ** The sizes of the batches *)

Lemma string_app_length s t :
  String.length (s +:+ t) = (String.length s + String.length t)%nat.
Proof. induction s as [|a s IH]; [done|]. rewrite string_app_cons. simpl. by rewrite IH. Qed.

Lemma string_app_inj_r t s1 s2 : s1 +:+ t = s2 +:+ t -> s1 = s2.
Proof.
  revert s2. induction s1 as [|a s1 IH]; intros [|c s2] H.
  - done.
  - apply (f_equal String.length) in H. rewrite !string_app_length in H.
    simpl in H. lia.
  - apply (f_equal String.length) in H. rewrite !string_app_length in H.
    simpl in H. lia.
  - rewrite !string_app_cons in H. injection H as -> H. f_equal. by apply IH.
Qed.

Lemma batch_name_inj filename_base : Inj (=) (=) (Text.batch_name filename_base).
Proof.
  intros n m H. unfold Text.batch_name in H.
  apply (inj (String.append filename_base)) in H.
  apply (inj (String.append "_")) in H.
  apply string_app_inj_r in H. by apply (inj pretty) in H.
Qed.

Lemma startswith_slash_batch_name filename_base n m :
  Text.startswith_slash (Text.batch_name filename_base n)
  = Text.startswith_slash (Text.batch_name filename_base m).
Proof. unfold Text.batch_name. by destruct filename_base. Qed.

Global Instance output_path_inj output_folder filename_base :
  Inj (=) (=) (Batch.output_path output_folder filename_base).
Proof.
  intros n m. unfold Batch.output_path, Text.join. simpl. unfold Text.join2.
  rewrite (startswith_slash_batch_name filename_base n m).
  destruct (Text.startswith_slash _); [apply batch_name_inj|].
  destruct (_ || _); intros H.
  - by apply (inj (String.append output_folder)), batch_name_inj in H.
  - apply (inj (String.append output_folder)) in H.
    by apply (inj (String.append "/")), batch_name_inj in H.
Qed.

Section BatchSizes.
Variables (output_folder filename_base : string) (B : Z) (files : gmap string file).

Local Abbreviation out := (Batch.output_path output_folder filename_base).
Local Abbreviation read_step := (Batch.read_step output_folder filename_base B).
Local Abbreviation file_step := (Batch.file_step output_folder filename_base B).
Local Abbreviation rollover := (Batch.rollover output_folder filename_base).
Local Abbreviation inv := (batch_inv output_folder filename_base B files).
Local Abbreviation world_ok := (batch_world output_folder filename_base B files).

Lemma rollover_eval f :
  fs (Batch.world f) !! out (Batch.batch_num (Batch.vars f) + 1) = None ->
  let w := Batch.world f in
  let b' := Batch.batch_num (Batch.vars f) + 1 in
  rollover f
  = (Ok tt,
     Batch.Frame
       (State (<[out b' := Container ∅]> (fs w))
          (<[next_handle w := out b']> (delete (Batch.output_multi_f5 (Batch.vars f)) (handles w)))
          (S (next_handle w)) (log w))
       (Batch.Locals 0 b' (out b') (next_handle w))).
Proof.
  intros Hnone. unfold Batch.rollover, bind, gets, Batch.assign, modify, Batch.lift, Api.close.
  simpl. rewrite open_eval. simpl. by rewrite Hnone.
Qed.

Lemma reads_at_insert_ne (fm : gmap string file) p q x :
  p ≠ q -> reads_at (<[p := x]> fm) q = reads_at fm q.
Proof. intros Hne. unfold reads_at. by rewrite lookup_insert_ne. Qed.

Lemma reads_at_insert (fm : gmap string file) p c :
  reads_at (<[p := Container c]> fm) p = Some (size c).
Proof. unfold reads_at. by rewrite lookup_insert_eq. Qed.

(** Line 97 finds the current output full: the next one is opened. *)
Lemma rollover_inv src ps k f :
  world_ok f -> counted B k f ->
  0 < B -> B <= Batch.read_num (Batch.vars f) ->
  handles (Batch.world f) !! src = Some ps -> (forall n, ps ≠ out n) ->
  exists f1, rollover f = (Ok tt, f1) /\ world_ok f1 /\ room B k f1
             /\ handles (Batch.world f1) !! src = Some ps.
Proof.
  intros (Hb & Hr & Hwf & Hout & Hlog & Hfull & Hcur & Hlater & Hother) Hk HB HBr Hsrc Hps.
  unfold counted in Hk. rewrite (proj2 (Z.ltb_lt 0 B) HB) in Hk. destruct Hk as (Hk & HrB & _).
  eexists. split; [apply rollover_eval; apply Hlater; lia|].
  assert (src ≠ Batch.output_multi_f5 (Batch.vars f)) as Hne1.
  { intros ->. rewrite Hout in Hsrc. injection Hsrc as Hsrc. by apply (Hps (Batch.batch_num (Batch.vars f))). }
  assert (src ≠ next_handle (Batch.world f)) as Hne2.
  { intros ->. apply Hwf in Hsrc. lia. }
  split; [|split].
  - unfold batch_world, handles_wf. simpl. split; [lia|]. split; [lia|]. split; [|split; [|split; [done|]]].
    + intros h p [[-> _]|[_ Hp]]%lookup_insert_Some; [lia|].
      apply lookup_delete_Some in Hp as [_ Hp]. apply Hwf in Hp. lia.
    + apply lookup_insert_eq.
    + split; [|split; [|split]].
      * intros n Hn. rewrite reads_at_insert_ne by (intros ?%(inj out); lia).
        destruct (decide (n = Batch.batch_num (Batch.vars f))) as [->|Hne].
        -- rewrite Hcur. f_equal. f_equal. lia.
        -- apply Hfull. lia.
      * rewrite reads_at_insert. by rewrite map_size_empty.
      * intros n Hn. rewrite lookup_insert_ne by (intros ?%(inj out); lia).
        apply Hlater. lia.
      * intros p Hp. rewrite lookup_insert_ne by (intros ?; by eapply Hp). by apply Hother.
  - unfold room. simpl. rewrite (proj2 (Z.ltb_lt 0 B) HB). lia.
  - simpl. rewrite lookup_insert_ne by done. by rewrite lookup_delete_ne.
Qed.

(** The read at hand is copied into the current output, which has room
    for it, and counted. *)
Lemma copied_inv src ps read_id k f w2 :
  world_ok f -> room B k f ->
  handles (Batch.world f) !! src = Some ps ->
  copy_read src read_id (Batch.output_multi_f5 (Batch.vars f)) (Batch.world f) = (Ok tt, w2) ->
  inv (k + 1)
    (Batch.Frame w2 (Batch.set_read_num (Batch.read_num (Batch.vars f) + 1) (Batch.vars f)))
  /\ handles w2 !! src = Some ps.
Proof.
  intros (Hb & Hr & Hwf & Hout & Hlog & Hfull & Hcur & Hlater & Hother) Hroom Hsrc Hcopy.
  apply copy_read_ok in Hcopy
    as (ps' & pd & cs & cd & run & g & Hhs & Hhd & Hps & Hrs & Hpd & Hrd & ->).
  rewrite Hout in Hhd. injection Hhd as <-.
  set (b := Batch.batch_num (Batch.vars f)) in *.
  set (r := Batch.read_num (Batch.vars f)) in *.
  assert (size cd = Z.to_nat r) as Hsize.
  { unfold reads_at in Hcur. rewrite Hpd in Hcur. by injection Hcur. }
  split; [|done]. split.
  - unfold batch_world. simpl. fold b.
    split; [done|]. split; [lia|]. split; [done|]. split; [done|]. split; [done|].
    split; [|split; [|split]].
    + intros n Hn. rewrite reads_at_insert_ne by (intros ?%(inj out); lia). by apply Hfull.
    + rewrite reads_at_insert. rewrite map_size_insert_None by done.
      rewrite Hsize. f_equal. lia.
    + intros n Hn. rewrite lookup_insert_ne by (intros ?%(inj out); lia). by apply Hlater.
    + intros p Hp. rewrite lookup_insert_ne by (intros ?; by eapply Hp). by apply Hother.
  - unfold counted, room in *. simpl. fold b. fold r in Hroom.
    destruct (0 <? B); lia.
Qed.

(** The try block of lines 103-112, when the log stays empty. *)
Lemma copy_block_world multi_f5 read_id f :
  let m := try_except
    (o <- gets (fun f => Batch.output_multi_f5 (Batch.vars f)) ;;
     Batch.lift (copy_read multi_f5 read_id o))
    (fun e =>
       path <- gets (fun f => Batch.output_file (Batch.vars f)) ;;
       Batch.lift (logger_error (FailedWriteMultiRead e path))) in
  log (Batch.world (snd (m f))) = [] ->
  Batch.vars (snd (m f)) = Batch.vars f
  /\ copy_read multi_f5 read_id (Batch.output_multi_f5 (Batch.vars f)) (Batch.world f)
     = (Ok tt, Batch.world (snd (m f))).
Proof.
  simpl. unfold try_except, bind, gets, Batch.lift.
  destruct (copy_read _ _ _ (Batch.world f)) as [[[]|e] w2]; simpl; [done|].
  intros Hnil. by apply app_eq_nil in Hnil as [_ ?].
Qed.

Lemma log_nil_grows s s' : grows s s' -> log s' = [] -> log s = [].
Proof. intros (_ & _ & Hp) Hnil. rewrite Hnil in Hp. by apply prefix_nil_inv in Hp. Qed.

Lemma read_step_inv src ps read_id k f f' :
  inv k f ->
  handles (Batch.world f) !! src = Some ps -> (forall n, ps ≠ out n) ->
  read_step src read_id f = (Ok tt, f') -> log (Batch.world f') = [] ->
  inv (k + 1) f' /\ handles (Batch.world f') !! src = Some ps.
Proof.
  intros [Hw Hk] Hsrc Hps Hstep Hnil.
  assert (exists f1, (if (B <=? Batch.read_num (Batch.vars f)) && (0 <? B)
                      then rollover else ret tt) f = (Ok tt, f1)
                     /\ world_ok f1 /\ room B k f1
                     /\ handles (Batch.world f1) !! src = Some ps) as (f1 & Hf1 & Hw1 & Hroom & Hsrc1).
  { destruct ((B <=? Batch.read_num (Batch.vars f)) && (0 <? B)) eqn:Hc.
    - apply andb_true_iff in Hc as [H1%Z.leb_le H2%Z.ltb_lt].
      by eapply rollover_inv.
    - exists f. split; [done|]. split; [done|]. split; [|done].
      unfold counted, room in *. destruct (0 <? B) eqn:HB; [|done].
      rewrite andb_true_r in Hc. apply Z.leb_gt in Hc. lia. }
  unfold Batch.read_step in Hstep. unfold bind at 1 in Hstep. unfold gets at 1 in Hstep.
  unfold bind at 1 in Hstep. rewrite Hf1 in Hstep.
  unfold bind at 1 in Hstep.
  pose proof (copy_block_world src read_id f1) as Hblock. simpl in Hblock.
  pose proof (copy_block_vars src read_id f1) as [Hok _]. simpl in Hok.
  destruct (try_except _ _ f1) as [rc f2]. simpl in Hblock, Hok. subst rc.
  unfold bind, gets, Batch.assign, modify in Hstep. injection Hstep as <-.
  simpl in Hnil. destruct (Hblock Hnil) as [Hv Hcopy]. rewrite Hv.
  by eapply copied_inv.
Qed.

Lemma read_loop_inv src ps read_ids :
  (forall n, ps ≠ out n) ->
  forall k f f',
    inv k f -> handles (Batch.world f) !! src = Some ps ->
    for_each read_ids (read_step src) f = (Ok tt, f') -> log (Batch.world f') = [] ->
    inv (k + Z.of_nat (length read_ids)) f' /\ handles (Batch.world f') !! src = Some ps.
Proof.
  intros Hps. induction read_ids as [|x l IH]; intros k f f' Hinv Hsrc Hloop Hnil.
  - injection Hloop as <-. simpl. by rewrite Z.add_0_r.
  - simpl in Hloop. unfold bind in Hloop.
    destruct (read_step src x f) as [[[]|e] f1] eqn:Hs; [|done].
    assert (log (Batch.world f1) = []) as Hnil1.
    { pose proof (preserves_for_each (on_world grows) l (read_step src)
                    (batch_read_step_respects grows grows_api _ _ _ src) f1) as Hg.
      rewrite Hloop in Hg. by eapply log_nil_grows. }
    destruct (read_step_inv src ps x k f f1 Hinv Hsrc Hps Hs Hnil1) as [Hinv1 Hsrc1].
    destruct (IH (k + 1) f1 f' Hinv1 Hsrc1 Hloop Hnil) as [Hinv' Hsrc'].
    split; [|done]. replace (k + Z.of_nat (length (x :: l))) with (k + 1 + Z.of_nat (length l));
      [done | simpl; lia].
Qed.

Hypothesis Hfresh : forall n, files !! out n = None.

Lemma input_not_output p : is_Some (files !! p) -> forall n, p ≠ out n.
Proof. intros [x Hx] n ->. by rewrite Hfresh in Hx. Qed.

Lemma file_step_inv input_file k f f' :
  inv k f -> is_Some (files !! input_file) ->
  file_step input_file f = (Ok tt, f') -> log (Batch.world f') = [] ->
  inv (k + Z.of_nat (default 0%nat (reads_at files input_file))) f'.
Proof.
  intros [Hw Hk] Hin Hstep Hnil.
  pose proof (input_not_output input_file Hin) as Hne.
  pose proof Hw as (Hb & Hr & Hwf & Hout & Hlog & Hfull & Hcur & Hlater & Hother).
  unfold Batch.file_step, bind, Batch.lift, try_finally in Hstep.
  rewrite open_eval, (Hother input_file Hne) in Hstep. cbv zeta in Hstep.
  destruct (files !! input_file) as [[|c]|] eqn:Hc; try done.
  cbv beta iota in Hstep. simpl Batch.world in Hstep. simpl Batch.vars in Hstep.
  set (h := next_handle (Batch.world f)) in *.
  set (w1 := State _ (<[h := input_file]> _) _ _) in Hstep.
  rewrite get_read_ids_eval in Hstep.
  assert (lookup_container w1 h = Some c) as Hlc.
  { apply lookup_container_Some. exists input_file. simpl. rewrite lookup_insert_eq.
    by rewrite (Hother input_file Hne). }
  rewrite Hlc in Hstep. cbv beta iota in Hstep.
  set (f1 := Batch.Frame w1 (Batch.vars f)) in Hstep.
  assert (Batch.output_multi_f5 (Batch.vars f) ≠ h) as Hoh.
  { intros Heq. apply Hwf in Hout. subst h. lia. }
  assert (inv k f1) as Hinv1.
  { split; [|done]. unfold batch_world, handles_wf. simpl.
    split; [done|]. split; [done|]. split; [|split; [|done]].
    - intros h' p [[Heq _]|[_ Hp]]%lookup_insert_Some; [rewrite <- Heq; unfold h; lia|].
      apply Hwf in Hp. lia.
    - by rewrite lookup_insert_ne. }
  destruct (for_each (map_to_list c).*1 (read_step h) f1) as [r2 f2] eqn:Hloop.
  simpl in Hstep. injection Hstep as -> <-. simpl in Hnil.
  destruct (read_loop_inv h input_file (map_to_list c).*1 Hne k f1 f2 Hinv1)
    as [[Hw2 Hk2] Hsrc2]; [by simpl; rewrite lookup_insert_eq | done | done |].
  rewrite length_fmap, length_map_to_list in Hk2.
  unfold reads_at. rewrite Hc. simpl.
  destruct Hw2 as (Hb2 & Hr2 & Hwf2 & Hout2 & Hlog2 & Hfull2 & Hcur2 & Hlater2 & Hother2).
  split; [|done]. unfold batch_world, handles_wf. simpl.
  split; [done|]. split; [done|]. split; [|split; [|done]].
  - intros h' p [_ Hp]%lookup_delete_Some. by apply (Hwf2 h' p).
  - rewrite lookup_delete_ne; [done|]. intros Heq. rewrite <- Heq, Hsrc2 in Hout2.
    injection Hout2 as Heq2. by apply (Hne _ Heq2).
Qed.

Lemma file_loop_inv file_list :
  Forall (fun p => is_Some (files !! p)) file_list ->
  forall k f f',
    inv k f ->
    for_each file_list file_step f = (Ok tt, f') -> log (Batch.world f') = [] ->
    inv (k + total_reads files file_list) f'.
Proof.
  induction 1 as [|p l Hp Hl IH]; intros k f f' Hinv Hloop Hnil.
  - injection Hloop as <-. simpl. by rewrite Z.add_0_r.
  - simpl in Hloop. unfold bind in Hloop.
    destruct (file_step p f) as [[[]|e] f1] eqn:Hs; [|done].
    assert (log (Batch.world f1) = []) as Hnil1.
    { pose proof (preserves_for_each (on_world grows) l file_step
                    (file_step_respects grows grows_api _ _ _) f1) as Hg.
      rewrite Hloop in Hg. by eapply log_nil_grows. }
    pose proof (file_step_inv p k f f1 Hinv Hp Hs Hnil1) as Hinv1.
    pose proof (IH _ f1 f' Hinv1 Hloop Hnil) as Hinv'.
    simpl. by rewrite Z.add_assoc.
Qed.

Lemma batches_cursor T f :
  0 <= Batch.batch_num (Batch.vars f) -> 0 <= Batch.read_num (Batch.vars f) ->
  counted B T f ->
  batches B T = Batch.batch_num (Batch.vars f) + 1
  /\ T - B * (batches B T - 1) = Batch.read_num (Batch.vars f).
Proof.
  unfold counted, batches, spec_batches.
  set (b := Batch.batch_num (Batch.vars f)). set (r := Batch.read_num (Batch.vars f)).
  intros Hb Hr Hc. destruct (0 <? B) eqn:HB; simpl.
  - apply Z.ltb_lt in HB. destruct Hc as (Hk & HrB & Hpos).
    destruct (0 <? T) eqn:HT.
    + apply Z.ltb_lt in HT. specialize (Hpos HT).
      assert ((T + B - 1) / B = b + 1) as ->.
      { symmetry. apply (Z.div_unique _ _ _ (r - 1)); lia. }
      lia.
    + apply Z.ltb_ge in HT. assert (b = 0) by nia. lia.
  - lia.
Qed.

(** C3, as the code has it.  A run from files in which no output of the
    run exists yet and every input is a file, that returns and logs no
    failure, leaves [batches B T] outputs: ceil(T / B) of them when there
    is a bound and a read, and one otherwise.  Each output but the last
    holds [B] reads, the last holds the rest, and no other path has
    changed.  Without a bound the one output holds all [T] reads. *)
Theorem batch_sizes file_list s' :
  Forall (fun p => is_Some (files !! p)) file_list ->
  Batch.repackage_multi_to_multi output_folder filename_base B file_list (init_state files)
  = (Ok tt, s') ->
  log s' = [] ->
  let T := total_reads files file_list in
  let K := batches B T in
  (forall n, is_Some (fs s' !! out n) <-> 0 <= n < K)
  /\ (forall n, reads_at (fs s') (out n)
                = if decide (0 <= n < K - 1) then Some (Z.to_nat B)
                  else if decide (n = K - 1) then Some (Z.to_nat (T - B * (K - 1)))
                  else None)
  /\ (forall p, (forall n, p ≠ out n) -> fs s' !! p = files !! p).
Proof.
  intros Hin Hrun Hnil T K.
  unfold Batch.repackage_multi_to_multi in Hrun. rewrite open_eval in Hrun.
  simpl in Hrun. rewrite Hfresh in Hrun.
  set (f0 := Batch.Frame _ _) in Hrun.
  assert (inv 0 f0) as Hinv0.
  { split.
    - unfold batch_world, handles_wf. simpl.
      split; [done|]. split; [done|]. split; [|split; [|split; [done|]]].
      + intros h p [[<- _]|[_ Hp]]%lookup_insert_Some; [lia | done].
      + apply lookup_insert_eq.
      + split; [intros; lia|]. split; [by rewrite reads_at_insert, map_size_empty|].
        split.
        * intros n Hn. rewrite lookup_insert_ne by (intros ?%(inj out); lia). apply Hfresh.
        * intros p Hp. apply lookup_insert_ne. intros ?. by eapply Hp.
    - unfold counted. simpl. destruct (0 <? B) eqn:HB; [apply Z.ltb_lt in HB; lia | done]. }
  unfold Batch.guarded_loop, try_finally, try_except in Hrun.
  destruct (for_each file_list file_step f0) as [[[]|e] f1] eqn:Hloop.
  2:{ simpl in Hrun. discriminate. }
  unfold bind, gets, Batch.lift, Api.close, modify in Hrun. simpl in Hrun.
  injection Hrun as <-. simpl in Hnil.
  pose proof (file_loop_inv file_list Hin 0 f0 f1 Hinv0 Hloop Hnil) as [Hw Hk].
  rewrite Z.add_0_l in Hk. fold T in Hk.
  destruct Hw as (Hb & Hr & Hwf & Hout & Hlog & Hfull & Hcur & Hlater & Hother).
  destruct (batches_cursor T f1 Hb Hr Hk) as [HK Hrest]. fold K in HK, Hrest.
  simpl. split; [|split; [|done]].
  - intros n. destruct (decide (0 <= n <= Batch.batch_num (Batch.vars f1))) as [Hn|Hn].
    + split; [lia|]. intros _.
      assert (is_Some (reads_at (fs (Batch.world f1)) (out n))) as [x Hx].
      { destruct (decide (n = Batch.batch_num (Batch.vars f1))) as [->|Hne];
          [by rewrite Hcur | rewrite Hfull; [done | lia]]. }
      unfold reads_at in Hx. by destruct (fs (Batch.world f1) !! out n).
    + rewrite (Hlater n Hn). split; [by intros [? ?] | lia].
  - intros n. repeat case_decide.
    + apply Hfull. lia.
    + replace n with (Batch.batch_num (Batch.vars f1)) by lia. by rewrite Hcur, Hrest.
    + unfold reads_at. rewrite Hlater; [done | lia].
Qed.
End BatchSizes.


Lemma scenario_outputs_fresh n :
  scenario_batch_files !! Batch.output_path "out" "batch" n = None.
Proof.
  unfold Batch.output_path, Text.join, Text.batch_name. simpl fold_left.
  unfold Text.join2. cbv [String.append Text.startswith_slash Text.endswith_slash
                           bool_decide decide_rel orb].
  simpl. unfold scenario_batch_files.
  rewrite !lookup_insert_ne by discriminate. by rewrite lookup_singleton_ne.
Qed.

Lemma batch_sizes_witness :
  let s' := snd (Batch.repackage_multi_to_multi "out" "batch" 10 scenario_batch_list
                   (init_state scenario_batch_files)) in
  let T := total_reads scenario_batch_files scenario_batch_list in
  let K := batches 10 T in
  (forall n, is_Some (fs s' !! Batch.output_path "out" "batch" n) <-> 0 <= n < K)
  /\ (forall n, reads_at (fs s') (Batch.output_path "out" "batch" n)
                = if decide (0 <= n < K - 1) then Some (Z.to_nat 10)
                  else if decide (n = K - 1) then Some (Z.to_nat (T - 10 * (K - 1)))
                  else None)
  /\ (forall p, (forall n, p ≠ Batch.output_path "out" "batch" n) ->
                fs s' !! p = scenario_batch_files !! p).
Proof.
  apply (batch_sizes "out" "batch" 10 scenario_batch_files scenario_outputs_fresh
           scenario_batch_list).
  - repeat constructor; vm_compute; by eauto.
  - vm_compute. reflexivity.
  - vm_compute. reflexivity.
Defined.

(** The first scenario of the specification, run: 22 reads in batches of
    10 make three outputs of 10, 10 and 2 reads. *)
Example batch_scenario :
  let '(r, s') := Batch.repackage_multi_to_multi "out" "batch" 10 scenario_batch_list
                    (init_state scenario_batch_files) in
  r = Ok tt
  /\ total_reads scenario_batch_files scenario_batch_list = 22
  /\ batches 10 22 = 3
  /\ reads_at (fs s') "out/batch_0.fast5" = Some 10%nat
  /\ reads_at (fs s') "out/batch_1.fast5" = Some 10%nat
  /\ reads_at (fs s') "out/batch_2.fast5" = Some 2%nat
  /\ size (fs s') = 6%nat
  /\ log s' = [].
Proof. vm_compute. done. Qed.

(** C3, as the claim words it, fails when the inputs hold no read: with
    a bound of 10 and no input, ceil(0 / 10) is 0, and the run leaves one
    output, without reads. *)
Lemma batch_count_counterexample :
  let '(r, s') := Batch.repackage_multi_to_multi "out" "batch" 10 [] (init_state ∅) in
  r = Ok tt /\ log s' = []
  /\ total_reads ∅ [] = 0
  /\ spec_batches 10 0 = 0
  /\ fs s' = {[ "out/batch_0.fast5" := Container ∅ ]}.
Proof. vm_compute. done. Qed.


(** ** The binning table: what is in it, and lines that stop the load *)

Lemma parse_lines_domain binning lines m read_id :
  parse_lines binning lines = Ok m ->
  is_Some (m !! read_id)
  <-> is_Some (binning !! read_id) \/ Exists (names_read read_id) lines.
Proof.
  revert binning. induction lines as [|line rest IH]; intros binning; simpl.
  - intros [= ->]. split; [by left | intros [?|H]; [done | inversion H]].
  - destruct (parse_line line) as [[r g]|e] eqn:Hl; [|done].
    intros Hm. rewrite (IH _ Hm), Exists_cons. apply parse_line_ok in Hl.
    destruct (decide (r = read_id)) as [->|Hne].
    + rewrite lookup_insert_eq. split; [|by eauto].
      intros _. right. left. by exists g.
    + rewrite lookup_insert_ne by done. split.
      * intros [?|?]; [by left | right; by right].
      * intros [?|[[g' Hg]|?]]; [by left | congruence | by right].
Qed.

Lemma parse_lines_provenance binning lines m read_id grp :
  parse_lines binning lines = Ok m ->
  m !! read_id = Some grp ->
  binning !! read_id = Some grp \/ Exists (fun line => fields line = [read_id; grp]) lines.
Proof.
  revert binning. induction lines as [|line rest IH]; intros binning; simpl.
  - intros [= ->] Hm. by left.
  - destruct (parse_line line) as [[r g]|e] eqn:Hl; [|done].
    intros Hm Hg. apply parse_line_ok in Hl.
    destruct (IH _ Hm Hg) as [Hb|Hr]; [|right; by right].
    destruct (decide (r = read_id)) as [->|Hne].
    + rewrite lookup_insert_eq in Hb. injection Hb as ->. right. by left.
    + rewrite lookup_insert_ne in Hb by done. by left.
Qed.

Lemma parse_lines_size binning lines m :
  parse_lines binning lines = Ok m -> (size m <= size binning + length lines)%nat.
Proof.
  revert binning. induction lines as [|line rest IH]; intros binning; simpl.
  - intros [= ->]. lia.
  - destruct (parse_line line) as [[r g]|e]; [|done].
    intros Hm. apply IH in Hm.
    pose proof (map_size_insert r g binning) as Hs.
    destruct (binning !! r); unfold id in Hs; simpl in Hm; lia.
Qed.

Lemma parse_lines_error binning lines e :
  parse_lines binning lines = Raise e -> e = ValueError.
Proof.
  revert binning. induction lines as [|line rest IH]; intros binning; simpl; [done|].
  unfold parse_line at 1.
  destruct (Text.split _ _) as [|a [|b [|c l]]]; try (by intros [= <-]). apply IH.
Qed.

(** X1.  The table holds what the lines say and nothing else: a read id
    has an entry exactly when some line names it, the label of an entry is
    the second field of a line that names it, and the table has no more
    entries than the file has lines. *)
Theorem parse_csv_entries lines m :
  parse_csv lines = Ok m ->
  (forall read_id, is_Some (m !! read_id) <-> Exists (names_read read_id) lines)
  /\ (forall read_id grp,
        m !! read_id = Some grp ->
        Exists (fun line => fields line = [read_id; grp]) lines)
  /\ (size m <= length lines)%nat.
Proof.
  intros Hm. split; [|split].
  - intros read_id. rewrite (parse_lines_domain _ _ _ _ Hm), lookup_empty.
    split; [intros [[? ?]|?]; done | by right].
  - intros read_id grp Hg.
    destruct (parse_lines_provenance _ _ _ _ _ Hm Hg) as [Hb|?]; [|done].
    by rewrite lookup_empty in Hb.
  - apply parse_lines_size in Hm. by rewrite map_size_empty in Hm.
Qed.

Lemma parse_csv_entries_witness :
  let lines := [tsv_line ["r1"; "A"]; tsv_line ["r2"; "B"]; tsv_line ["r1"; "C"]] in
  let m : gmap string string := {[ "r1" := "C"; "r2" := "B" ]} in
  (forall read_id, is_Some (m !! read_id) <-> Exists (names_read read_id) lines)
  /\ (forall read_id grp,
        m !! read_id = Some grp ->
        Exists (fun line => fields line = [read_id; grp]) lines)
  /\ (size m <= length lines)%nat.
Proof.
  apply (parse_csv_entries
           [tsv_line ["r1"; "A"]; tsv_line ["r2"; "B"]; tsv_line ["r1"; "C"]]).
  vm_compute. reflexivity.
Defined.

Lemma lstrip_blank line : blank line = true -> Text.lstrip line = EmptyString.
Proof.
  unfold blank. induction line as [|c r IH]; simpl; [done|].
  intros [Hc Hr]%andb_true_iff. rewrite Hc. by apply IH.
Qed.

(** X2.  A line of white space only, the empty line and a line that is
    just a newline among them, stops the load with [ValueError], wherever
    it stands in the file. *)
Theorem parse_csv_blank_line lines line :
  line ∈ lines -> blank line = true -> parse_csv lines = Raise ValueError.
Proof.
  intros Hin Hb.
  assert (exists e, parse_csv lines = Raise e) as [e He].
  { apply parse_lines_raise. apply Exists_exists. exists line. split; [done|].
    unfold fields, Text.strip. by rewrite (lstrip_blank line Hb). }
  rewrite He. f_equal. by eapply parse_lines_error.
Qed.

Lemma parse_csv_blank_line_witness :
  parse_csv [tsv_line ["r1"; "A"]; tsv_line []] = Raise ValueError.
Proof.
  apply (parse_csv_blank_line _ (tsv_line [])).
  - right. left.
  - reflexivity.
Defined.

(** ** Whole runs: nothing is lost, nothing stays open, binning returns *)

Lemma batch_split_respects (R : relation state) `{!Reflexive R, !Transitive R}
    file_list output_folder binning :
  api_respects R ->
  preserves R (Binning.batch_split_multi_to_adapter_multi file_list output_folder binning).
Proof.
  intros HR. unfold Binning.batch_split_multi_to_adapter_multi.
  apply preserves_for_each; try apply _. intros filename.
  apply preserves_bind; [apply _ | | intros _; apply preserves_ret; apply _].
  by apply multi_to_adapter_multi_respects.
Qed.

Lemma main_respects (R : relation state) `{!Reflexive R, !Transitive R} a :
  api_respects R -> preserves R (main a).
Proof.
  intros HR. unfold main. destruct (binning_csv_file a) as [lines|].
  - destruct (parse_csv lines) as [binning|e]; [|apply preserves_raise; apply _].
    by apply batch_split_respects.
  - by apply repackage_respects.
Qed.

(** X3.  A run of either mode only adds: a read that a container holds
    before the run is in that container after it, with the same run id
    and the same groups; a file that is no container is left as it is; and
    the log keeps the entries it had. *)
Theorem main_only_adds a s :
  let s' := snd (main a s) in
  (forall path c read_id r,
     fs s !! path = Some (Container c) -> c !! read_id = Some r ->
     exists c', fs s' !! path = Some (Container c') /\ c' !! read_id = Some r)
  /\ (forall path, fs s !! path = Some Corrupt -> fs s' !! path = Some Corrupt)
  /\ log s `prefix_of` log s'.
Proof.
  destruct (main_respects grows a grows_api s) as (Hc & Hg & Hl).
  split; [|split; [exact Hc | exact Hl]].
  intros path c read_id r Hp Hr. destruct (Hg path c Hp) as (c' & Hc' & Hsub).
  exists c'. split; [done|]. by eapply lookup_weaken.
Qed.

(** *** Handles *)

Global Instance handles_balanced_refl : Reflexive handles_balanced.
Proof. intros s Hwf. done. Qed.

Global Instance handles_balanced_trans : Transitive handles_balanced.
Proof.
  intros a b c Hab Hbc Ha. destruct (Hab Ha) as [Hb Hh1].
  destruct (Hbc Hb) as [Hc Hh2]. split; [done | congruence].
Qed.

Lemma same_handles_balanced {A} (m : M state A) :
  preserves same_handles m -> preserves handles_balanced m.
Proof.
  intros Hm s Hwf. destruct (Hm s) as [Hh Hn]. split; [|done].
  intros h p. rewrite Hh, Hn. apply Hwf.
Qed.

Lemma with_open_balanced {A} path m (body : handle -> M state A) :
  (forall h, preserves handles_balanced (body h)) ->
  preserves handles_balanced (Api.with_open path m body).
Proof.
  intros Hbody s Hwf. rewrite with_open_eval.
  destruct (Api.open path m s) as [r s1] eqn:Ho.
  apply open_handles in Ho as [[[e ->] ->]|(-> & Hh & Hn & _)]; [done|].
  assert (handles_wf s1) as Hwf1.
  { intros h p. rewrite Hh, Hn. intros [[<- _]|[_ Hp]]%lookup_insert_Some; [lia|].
    apply Hwf in Hp. lia. }
  destruct (Hbody (next_handle s) s1 Hwf1) as [Hwf2 Hh2].
  destruct (body (next_handle s) s1) as [r2 s2]. simpl in *. split.
  - intros h p. simpl. intros [_ Hp]%lookup_delete_Some. by apply (Hwf2 h p).
  - rewrite Hh2, Hh, delete_insert_eq. apply delete_id. by apply handles_wf_fresh.
Qed.

Lemma multi_to_adapter_multi_balanced input_file output_folder binning :
  preserves handles_balanced
    (Binning.multi_to_adapter_multi input_file output_folder binning).
Proof.
  unfold Binning.multi_to_adapter_multi, Binning.body.
  apply preserves_try_except; [apply _ | |intros e].
  - apply with_open_balanced. intros h.
    apply preserves_bind; [apply _ | |intros ids].
    { apply same_handles_balanced, get_read_ids_same_handles. }
    apply preserves_bind; [apply _ | | intros _; apply preserves_ret; apply _].
    apply preserves_for_each; try apply _. intros entry. unfold Binning.group_step.
    apply preserves_try_except; [apply _ | |intros e].
    + apply with_open_balanced. intros h'.
      apply preserves_for_each; try apply _. intros x.
      apply same_handles_balanced, binning_read_step_same_handles.
    + apply same_handles_balanced, logger_error_same_handles.
  - apply preserves_bind; [apply _ | | intros _; apply preserves_ret; apply _].
    apply same_handles_balanced, logger_error_same_handles.
Qed.

(** X4.  No run of [main] leaves a handle open that it opened: in binning
    mode and in batch mode alike, and also when the binning file does not
    parse, the open handles after the run are those before it. *)
Theorem main_closes_what_it_opens a s :
  handles_wf s -> handles (snd (main a s)) = handles s.
Proof.
  intros Hwf. unfold main. destruct (binning_csv_file a) as [lines|].
  - destruct (parse_csv lines) as [binning|e]; [|done].
    unfold Binning.batch_split_multi_to_adapter_multi.
    refine (proj2 (preserves_for_each handles_balanced _ _ _ s Hwf)).
    intros filename.
    apply preserves_bind; [apply _ | | intros _; apply preserves_ret; apply _].
    apply multi_to_adapter_multi_balanced.
  - by apply repackage_handles.
Qed.

Lemma main_closes_what_it_opens_witness :
  handles (snd (main example_binning_args (init_state example_files))) = ∅
  /\ handles (snd (main example_batch_args (init_state example_files))) = ∅.
Proof.
  split.
  - apply (main_closes_what_it_opens example_binning_args (init_state example_files)).
    intros h p. simpl. by rewrite lookup_empty.
  - apply (main_closes_what_it_opens example_batch_args (init_state example_files)).
    intros h p. simpl. by rewrite lookup_empty.
Defined.

(** *** Binning mode returns *)



(** ** The grouping of lines 46-52, in full *)

Lemma binned_append_keys binned grp read_id :
  (Binning.binned_append binned grp read_id).*1
  = if decide (grp ∈ binned.*1) then binned.*1 else (binned.*1 ++ [grp])%list.
Proof.
  induction binned as [|[g ids] rest IH].
  - rewrite decide_False; [done | apply not_elem_of_nil].
  - unfold Binning.binned_append; fold Binning.binned_append.
    destruct (decide (g = grp)) as [->|Hne]; rewrite !fmap_cons; simpl fst.
    + rewrite decide_True; [done | left].
    + rewrite IH. destruct (decide (grp ∈ rest.*1)) as [Hin|Hin].
      * rewrite decide_True; [done | by right].
      * rewrite decide_False; [done|]. intros [?|?]%elem_of_cons; congruence.
Qed.

Lemma binned_append_entry binned grp read_id g rs :
  NoDup binned.*1 ->
  (g, rs) ∈ Binning.binned_append binned grp read_id ->
  (g ≠ grp /\ (g, rs) ∈ binned)
  \/ (g = grp /\ exists rs0, (grp, rs0) ∈ binned /\ rs = (rs0 ++ [read_id])%list)
  \/ (g = grp /\ (grp ∉ binned.*1) /\ rs = [read_id]).
Proof.
  induction binned as [|[g0 ids] rest IH]; simpl; intros Hnd.
  - intros [= -> ->]%list_elem_of_singleton. right; right.
    split; [done|]. split; [apply not_elem_of_nil | done].
  - apply NoDup_cons in Hnd as [Hg0 Hnd].
    destruct (decide (g0 = grp)) as [->|Hne].
    + intros [[= -> ->]|Hin]%elem_of_cons.
      * right; left. split; [done|]. exists ids. split; [left | done].
      * left. split; [|by right]. intros ->. apply Hg0.
        apply list_elem_of_fmap. by exists (grp, rs).
    + intros [[= -> ->]|Hin]%elem_of_cons.
      * left. split; [done | left].
      * destruct (IH Hnd Hin) as [[? ?]|[(-> & rs0 & ? & ->)|(-> & ? & ->)]].
        -- left. split; [done | by right].
        -- right; left. split; [done|]. exists rs0. split; [by right | done].
        -- right; right. split; [done|]. split; [|done].
           intros [?|?]%elem_of_cons; [congruence | done].
Qed.

Lemma bin_reads_snoc binning l x :
  Binning.bin_reads binning (l ++ [x])%list
  = Binning.bin_step binning (Binning.bin_reads binning l) x.
Proof. unfold Binning.bin_reads. by rewrite fold_left_app. Qed.

Lemma filter_snoc {A} (P : A -> Prop) `{!forall x, Decision (P x)} (l : list A) x :
  filter P (l ++ [x])%list = (filter P l ++ if decide (P x) then [x] else [])%list.
Proof. by rewrite filter_app. Qed.

Lemma bin_reads_shape binning read_ids :
  NoDup (Binning.bin_reads binning read_ids).*1
  /\ (forall grp rids,
        (grp, rids) ∈ Binning.bin_reads binning read_ids ->
        rids = filter (fun r => binning !! r = Some grp) read_ids /\ rids ≠ [])
  /\ (forall grp,
        grp ∉ (Binning.bin_reads binning read_ids).*1 ->
        filter (fun r => binning !! r = Some grp) read_ids = []).
Proof.
  induction read_ids as [|x l (Hnd & Hgroups & Hmissing)] using rev_ind.
  - split; [constructor|]. split; [by intros ? ? ?%elem_of_nil | done].
  - rewrite bin_reads_snoc. unfold Binning.bin_step.
    destruct (binning !! x) as [g|] eqn:Hx.
    + split; [|split].
      * rewrite binned_append_keys. case_decide as Hin; [done|].
        apply NoDup_app. split; [done|]. split; [|apply NoDup_singleton].
        intros y Hy ->%list_elem_of_singleton. done.
      * intros grp rids Hin. rewrite filter_snoc.
        destruct (binned_append_entry _ _ _ _ _ Hnd Hin)
          as [[Hne Hold]|[(-> & rs0 & Hold & ->)|(-> & Hfresh & ->)]].
        -- destruct (Hgroups grp rids Hold) as [-> Hnil].
           rewrite decide_False by congruence. by rewrite app_nil_r.
        -- destruct (Hgroups g rs0 Hold) as [-> Hnil].
           rewrite decide_True by done. split; [done|]. by intros [? ?]%app_eq_nil.
        -- rewrite (Hmissing g Hfresh), decide_True by done. done.
      * intros grp Hout. rewrite binned_append_keys in Hout. rewrite filter_snoc.
        case_decide as Hin.
        -- rewrite (Hmissing grp Hout), decide_False; [done|]. congruence.
        -- apply not_elem_of_app in Hout as [Hout Hne].
           rewrite (Hmissing grp Hout), decide_False; [done|].
           intros ?. apply Hne. simplify_eq. left.
    + split; [done|]. split.
      * intros grp rids Hin. rewrite filter_snoc, decide_False by congruence.
        rewrite app_nil_r. by apply Hgroups.
      * intros grp Hout. rewrite filter_snoc, decide_False by congruence.
        rewrite app_nil_r. by apply Hmissing.
Qed.

(** X6.  The grouping opens every label once and loses no order: the
    labels of [binned] are pairwise distinct, the group of a label is not
    empty and lists, in the order of the input, exactly the reads that the
    table sends to that label, and a label that has such a read has a
    group. *)
Theorem bin_reads_groups binning read_ids :
  NoDup (Binning.bin_reads binning read_ids).*1
  /\ (forall grp rids,
        (grp, rids) ∈ Binning.bin_reads binning read_ids ->
        rids = filter (fun r => binning !! r = Some grp) read_ids /\ rids ≠ [])
  /\ (forall grp read_id,
        read_id ∈ read_ids -> binning !! read_id = Some grp ->
        grp ∈ (Binning.bin_reads binning read_ids).*1).
Proof.
  destruct (bin_reads_shape binning read_ids) as (Hnd & Hgroups & Hmissing).
  split; [done|]. split; [done|].
  intros grp read_id Hin Hb.
  destruct (decide (grp ∈ (Binning.bin_reads binning read_ids).*1)) as [?|Hout]; [done|].
  apply Hmissing in Hout.
  assert (read_id ∈ filter (fun r => binning !! r = Some grp) read_ids) as Hf
    by (by apply list_elem_of_filter).
  rewrite Hout in Hf. by apply elem_of_nil in Hf.
Qed.

(** ** Binning mode: the files it touches *)

Global Instance untouched_outside_refl P : Reflexive (untouched_outside P).
Proof. by intros s p Hp. Qed.

Global Instance untouched_outside_trans P : Transitive (untouched_outside P).
Proof. intros a b c Hab Hbc p Hp. by rewrite (Hbc p Hp), (Hab p Hp). Qed.

Global Instance touches_through_refl dst path P : Reflexive (touches_through dst path P).
Proof. intros s Hh. split; [done | reflexivity]. Qed.

Global Instance touches_through_trans dst path P : Transitive (touches_through dst path P).
Proof.
  intros a b c Hab Hbc Ha. destruct (Hab Ha) as [Hb Hw1]. destruct (Hbc Hb) as [Hc Hw2].
  split; [done | by etransitivity].
Qed.

Lemma binning_read_step_touches multi_f5 dst path output_file read_id (P : string -> Prop) :
  P path ->
  preserves (touches_through dst path P)
    (Binning.read_step multi_f5 dst output_file read_id).
Proof.
  intros HP s Hh.
  pose proof (binning_read_step_cases multi_f5 dst path output_file read_id s Hh) as Hc.
  destruct (Binning.read_step _ _ _ _ s) as [r s']. simpl.
  destruct Hc as [[_ ->]|[(_ & -> & _)|[(_ & cd & rd & Hcd & Hrd & ->)|(_ & e & ->)]]].
  - split; [done | reflexivity].
  - split; [done | reflexivity].
  - split; [done|]. intros p Hp. simpl. apply lookup_insert_ne. by intros ->.
  - split; [done|]. by intros p Hp.
Qed.

Lemma open_untouched (P : string -> Prop) path m :
  P path -> preserves (untouched_outside P) (Api.open path m).
Proof.
  intros HP s. destruct (Api.open path m s) as [r s'] eqn:Ho.
  rewrite open_eval in Ho. simpl in Ho. simpl.
  destruct (fs s !! path) as [[|c]|] eqn:Hp; [| |destruct m]; simplify_eq; try reflexivity.
  - by intros p Hnp.
  - intros p Hnp. simpl. apply lookup_insert_ne. by intros ->.
Qed.

Lemma group_step_touches multi_f5 input_file output_folder entry (P : string -> Prop) :
  P (Binning.output_path output_folder (fst entry) input_file) ->
  preserves (untouched_outside P)
    (Binning.group_step multi_f5 input_file output_folder entry).
Proof.
  intros HP. unfold Binning.group_step.
  set (path := Binning.output_path output_folder entry.1 input_file) in *.
  apply preserves_try_except; [apply _ | |by intros e s p Hp].
  intros s. rewrite with_open_eval.
  pose proof (open_untouched P path ModeA HP s) as Hw.
  destruct (Api.open path ModeA s) as [r s1] eqn:Ho.
  apply open_handles in Ho as [[[e ->] ->]|(-> & Hh & Hn & _)]; [reflexivity|].
  simpl in Hw.
  pose proof (preserves_for_each (touches_through (next_handle s) path P) (snd entry)
                (Binning.read_step multi_f5 (next_handle s) path)
                (fun x => binning_read_step_touches _ _ _ _ x P HP) s1) as Hloop.
  destruct (for_each _ _ s1) as [r2 s2]. simpl in *.
  destruct Hloop as [_ Hw2]; [rewrite Hh; apply lookup_insert_eq|].
  transitivity s1; [done|]. transitivity s2; [done|]. by intros p Hp.
Qed.

(** X7.  A run of [multi_to_adapter_multi] touches no file but the
    destinations of the labels that the table gives to reads of the
    input: a path that is not such a destination holds after the run what
    it held before.  So the input is never written to, unless it is its
    own destination. *)
Theorem binning_touches_destinations_only input_file output_folder binning s path :
  (forall c read_id grp,
     fs s !! input_file = Some (Container c) ->
     is_Some (c !! read_id) -> binning !! read_id = Some grp ->
     path ≠ Binning.output_path output_folder grp input_file) ->
  fs (snd (Binning.multi_to_adapter_multi input_file output_folder binning s)) !! path
  = fs s !! path.
Proof.
  intros Hpath.
  destruct (fs s !! input_file) as [[|c]|] eqn:Hc.
  1,3: rewrite multi_to_adapter_multi_unopenable; by eauto.
  rewrite (multi_to_adapter_multi_eval _ _ _ _ _ Hc). cbv zeta. simpl.
  set (P := fun p => exists read_id grp,
              is_Some (c !! read_id) /\ binning !! read_id = Some grp
              /\ p = Binning.output_path output_folder grp input_file).
  match goal with |- context [for_each ?l ?b ?s1] =>
    assert (preserves (untouched_outside P) (for_each l b)) as Hw end.
  { apply preserves_for_each_in; try apply _.
    intros [grp rids] Hin. apply group_step_touches. simpl.
    destruct (bin_reads_shape binning (map_to_list c).*1) as (_ & Hgroups & _).
    destruct (Hgroups grp rids Hin) as [_ Hne].
    destruct rids as [|r rids]; [done|].
    destruct (bin_reads_sound binning _ grp (r :: rids) r Hin) as [Hr1 Hr2]; [left|].
    exists r, grp. split; [by apply elem_of_read_ids | done]. }
  rewrite (Hw _ path); [done|].
  intros (read_id & grp & Hr & Hb & ->). by apply (Hpath c read_id grp).
Qed.

Lemma binning_touches_destinations_only_witness :
  fs (snd (Binning.multi_to_adapter_multi "in/a.fast5" "out" scenario_binning
             (init_state scenario_binning_files))) !! "in/a.fast5"
  = fs (init_state scenario_binning_files) !! "in/a.fast5".
Proof.
  apply (binning_touches_destinations_only "in/a.fast5" "out" scenario_binning
           (init_state scenario_binning_files) "in/a.fast5").
  intros c read_id grp _ _ Hb.
  assert (map_Forall (fun _ g => g = "A" \/ g = "B") scenario_binning) as Hlabels.
  { apply (bool_decide_unpack _). vm_compute. exact I. }
  destruct (Hlabels read_id grp Hb) as [-> | ->]; vm_compute; discriminate.
Defined.

(** ** Binning mode: a second run *)

Lemma binning_read_loop_skips multi_f5 h path rids :
  forall s cd,
    handles s !! h = Some path -> fs s !! path = Some (Container cd) ->
    (forall r, r ∈ rids -> is_Some (cd !! r)) ->
    for_each rids (Binning.read_step multi_f5 h path) s = (Ok tt, s).
Proof.
  induction rids as [|x l IH]; intros s cd Hh Hcd Hall; [done|].
  simpl. unfold bind.
  rewrite (binning_read_step_skip multi_f5 h path x s cd).
  - apply (IH s cd Hh Hcd). intros r Hr. apply Hall. by right.
  - apply lookup_container_Some. by exists path.
  - apply Hall. left.
Qed.

(** The block of a label whose reads are all in its destination opens the
    destination, finds them and closes it. *)
Lemma group_step_noop multi_f5 input_file output_folder grp rids s :
  rids ≠ [] ->
  (forall r, r ∈ rids ->
     present (fs s) (Binning.output_path output_folder grp input_file) r) ->
  exists s', Binning.group_step multi_f5 input_file output_folder (grp, rids) s = (Ok tt, s')
             /\ fs s' = fs s /\ log s' = log s.
Proof.
  intros Hne Hall. unfold Binning.group_step, try_except. simpl fst. simpl snd.
  set (path := Binning.output_path output_folder grp input_file) in *.
  destruct rids as [|r0 rids]; [done|].
  destruct (Hall r0) as (cd & Hcd & _); [left|].
  rewrite with_open_eval, open_eval, Hcd. cbv beta iota zeta.
  erewrite (binning_read_loop_skips multi_f5 (next_handle s) path (r0 :: rids) _ cd).
  - eexists. split; [done|]. done.
  - simpl. apply lookup_insert_eq.
  - done.
  - intros r Hr. destruct (Hall r Hr) as (cd' & Hcd' & Hr'). by simplify_eq.
Qed.

Lemma group_loop_noop multi_f5 input_file output_folder binned :
  (forall grp rids, (grp, rids) ∈ binned -> rids ≠ []) ->
  forall s,
    (forall grp rids r, (grp, rids) ∈ binned -> r ∈ rids ->
       present (fs s) (Binning.output_path output_folder grp input_file) r) ->
    exists s', for_each binned (Binning.group_step multi_f5 input_file output_folder) s
               = (Ok tt, s')
               /\ fs s' = fs s /\ log s' = log s.
Proof.
  induction binned as [|[grp rids] rest IH]; intros Hne s Hall.
  - exists s. done.
  - destruct (group_step_noop multi_f5 input_file output_folder grp rids s)
      as (s1 & Hs1 & Hfs1 & Hlog1).
    { apply (Hne grp rids). left. }
    { intros r Hr. apply (Hall grp rids r); [left | done]. }
    destruct (IH (fun g rs Hin => Hne g rs (list_elem_of_further _ _ _ Hin)) s1)
      as (s2 & Hs2 & Hfs2 & Hlog2).
    { intros g rs r Hin Hr. rewrite Hfs1. apply (Hall g rs r); [by right | done]. }
    exists s2. simpl. unfold bind. rewrite Hs1. split; [done|]. split; congruence.
Qed.

Lemma binned_input_noop input_file output_folder binning s c :
  fs s !! input_file = Some (Container c) ->
  (forall read_id grp,
     is_Some (c !! read_id) -> binning !! read_id = Some grp ->
     present (fs s) (Binning.output_path output_folder grp input_file) read_id) ->
  let s' := snd (Binning.multi_to_adapter_multi input_file output_folder binning s) in
  fs s' = fs s /\ log s' = log s.
Proof.
  intros Hc Hall. rewrite (multi_to_adapter_multi_eval _ _ _ _ _ Hc). cbv zeta. simpl snd.
  destruct (bin_reads_shape binning (map_to_list c).*1) as (_ & Hgroups & _).
  match goal with |- context [for_each ?l ?b ?s1] =>
    destruct (group_loop_noop (next_handle s) input_file output_folder l
                (fun g rs Hin => proj2 (Hgroups g rs Hin)) s1) as (s2 & Hs2 & Hfs2 & Hlog2) end.
  - intros grp rids r Hin Hr. simpl.
    destruct (bin_reads_sound binning _ grp rids r Hin Hr) as [Hr1 Hr2].
    apply Hall; [by apply elem_of_read_ids | done].
  - rewrite Hs2. done.
Qed.


(** X8.  When every read of the input that the table names is already in
    the container of its label, [multi_to_adapter_multi] changes no file
    and logs nothing.  This is the case in particular when the table names
    no read of the input: then no container is made, not even an empty
    one. *)
Theorem binning_noop_when_binned input_file output_folder binning s c :
  fs s !! input_file = Some (Container c) ->
  (forall read_id grp,
     is_Some (c !! read_id) -> binning !! read_id = Some grp ->
     present (fs s) (Binning.output_path output_folder grp input_file) read_id) ->
  let s' := snd (Binning.multi_to_adapter_multi input_file output_folder binning s) in
  fs s' = fs s /\ log s' = log s.
Proof. apply binned_input_noop. Qed.

Lemma binning_noop_when_binned_witness :
  let s := init_state binned_files in
  let s' := snd (Binning.multi_to_adapter_multi "in/a.fast5" "out" binned_table s) in
  fs s' = fs s /\ log s' = log s.
Proof.
  apply (binning_noop_when_binned "in/a.fast5" "out" binned_table (init_state binned_files)
           (example_container "r" 3)).
  - vm_compute. reflexivity.
  - intros read_id grp Hr Hb.
    assert (map_Forall (fun r g => (r = "r0" /\ g = "A") \/ (r = "r1" /\ g = "B")
                                   \/ (r = "r2" /\ g = "A")) binned_table) as Hlabels.
    { apply (bool_decide_unpack _). vm_compute. exact I. }
    destruct (Hlabels read_id grp Hb) as [[-> ->]|[[-> ->]|[-> ->]]];
      eexists; (split; [vm_compute; reflexivity | vm_compute; by eauto]).
Defined.

(** What a run over an input that opens leaves behind: each read that the
    table names is in the container of its label or a failure is in the
    log, and every read that a container has gained is a read of the
    input. *)
Lemma binning_run_facts input_file output_folder binning s c :
  fs s !! input_file = Some (Container c) ->
  let s' := snd (Binning.multi_to_adapter_multi input_file output_folder binning s) in
  (forall read_id grp,
     is_Some (c !! read_id) -> binning !! read_id = Some grp ->
     copied_or_logged s' (Binning.output_path output_folder grp input_file) read_id)
  /\ (forall path read_id,
        present (fs s') path read_id ->
        present (fs s) path read_id \/ is_Some (c !! read_id)).
Proof.
  intros Hc. rewrite (multi_to_adapter_multi_eval _ _ _ _ _ Hc). cbv zeta. simpl snd.
  set (h := next_handle s).
  set (s1 := State (fs s) (<[h := input_file]> (handles s)) (S h) (log s)).
  set (binned := Binning.bin_reads binning (map_to_list c).*1).
  split.
  - intros read_id grp Hr Hb.
    destruct (bin_reads_complete binning (map_to_list c).*1 read_id grp)
      as (rids & Hin & Hrid); [by apply elem_of_read_ids | done |].
    pose proof (group_loop_settles h input_file output_folder binned grp rids read_id
                  Hin Hrid s1) as Hg.
    destruct Hg as [?|[?|?]]; [by left | right; by left | right; by right].
  - assert (preserves (writes_within (fun _ read_id => is_Some (c !! read_id)))
              (for_each binned (Binning.group_step h input_file output_folder))) as Hw.
    { apply preserves_for_each_in; try apply _.
      intros [grp rids] Hin. apply group_step_writes. intros r Hr. simpl in *.
      destruct (bin_reads_sound binning _ grp rids r Hin Hr) as [Hr1 Hr2].
      by apply elem_of_read_ids. }
    intros path read_id Hp. by apply (Hw s1 path read_id).
Qed.

(** X9.  Binning is idempotent: after a run over an input that opens and
    that has logged no failure, a second run over the same input with the
    same table changes no file and logs nothing. *)
Theorem binning_second_run_changes_nothing input_file output_folder binning s c :
  fs s !! input_file = Some (Container c) ->
  let s1 := snd (Binning.multi_to_adapter_multi input_file output_folder binning s) in
  log s1 = [] ->
  let s2 := snd (Binning.multi_to_adapter_multi input_file output_folder binning s1) in
  fs s2 = fs s1 /\ log s2 = [].
Proof.
  intros Hc s1 Hlog s2.
  destruct (binning_run_facts input_file output_folder binning s c Hc) as [Hdone Hnew].
  fold s1 in Hdone, Hnew.
  destruct (multi_to_adapter_multi_respects grows grows_api input_file output_folder binning s)
    as (_ & Hg & _). fold s1 in Hg.
  destruct (Hg input_file c Hc) as (c1 & Hc1 & Hsub).
  assert (forall read_id, is_Some (c1 !! read_id) -> is_Some (c !! read_id)) as Hdom.
  { intros read_id Hr.
    destruct (Hnew input_file read_id) as [(c0 & Hc0 & Hr0)|?]; [by exists c1 | | done].
    by simplify_eq. }
  rewrite <- Hlog. subst s2. apply (binned_input_noop _ _ _ _ c1 Hc1).
  intros read_id grp Hr Hb.
  destruct (Hdone read_id grp (Hdom read_id Hr) Hb) as [?|[[e He]|[e He]]]; [done|..];
    rewrite Hlog in He; by apply elem_of_nil in He.
Qed.

Lemma binning_second_run_changes_nothing_witness :
  let s1 := snd (Binning.multi_to_adapter_multi "in/a.fast5" "out" scenario_binning
                   (init_state scenario_binning_files)) in
  let s2 := snd (Binning.multi_to_adapter_multi "in/a.fast5" "out" scenario_binning s1) in
  fs s2 = fs s1 /\ log s2 = [].
Proof.
  apply (binning_second_run_changes_nothing "in/a.fast5" "out" scenario_binning
           (init_state scenario_binning_files) (example_container "r" 8)).
  - vm_compute. reflexivity.
  - vm_compute. reflexivity.
Defined.

(** ** Batch mode: the files it touches *)

(** X11.  A batch-mode run touches no file but its outputs: a path that
    is not the path of an output [{filename_base}_{n}.fast5] of the output
    folder holds after the run what it held before, however the run ends.
    So an input is never written to, unless it is itself such an output. *)
Theorem batch_touches_outputs_only output_folder filename_base batch_size file_list s path :
  handles_wf s ->
  (forall n, path ≠ Batch.output_path output_folder filename_base n) ->
  fs (snd (Batch.repackage_multi_to_multi output_folder filename_base batch_size
             file_list s)) !! path
  = fs s !! path.
Proof.
  intros Hwf Hpath. unfold Batch.repackage_multi_to_multi.
  destruct (Api.open _ ModeA s) as [r s1] eqn:Ho.
  pose proof Ho as Ho'. rewrite open_eval in Ho'. simpl in Ho'.
  apply open_handles in Ho as [[[e ->] ->]|(-> & Hh & Hn & _)]; [done|].
  match goal with |- context [Batch.guarded_loop _ _ _ _ ?f] => set (f0 := f) end.
  assert (batch_untouched output_folder filename_base (fs s) f0) as Hinv0.
  { unfold batch_untouched, handles_wf. simpl. rewrite Hh, Hn.
    split; [|split; [lia|split]].
    - intros h p [[<- _]|[_ Hp]]%lookup_insert_Some; [lia|]. apply Hwf in Hp. lia.
    - intros p. rewrite lookup_insert_eq. intros [= <-]. by eauto.
    - intros p Hp.
      destruct (fs s !! Batch.output_path output_folder filename_base 0) as [[|c]|] eqn:Hc;
        simplify_eq; try done.
      simpl. apply lookup_insert_ne. intros Heq. by apply (Hp _ (eq_sym Heq)). }
  assert (preserves (keeps (batch_untouched output_folder filename_base (fs s)))
            (Batch.guarded_loop output_folder filename_base batch_size file_list)) as Hloop.
  { unfold Batch.guarded_loop.
    apply preserves_try_finally; [apply _ | |].
    - apply preserves_try_except; [apply _ | |intros e; apply preserves_raise; apply _].
      apply preserves_for_each; try apply _. intros x. apply file_step_untouched.
    - intros f (Hwf1 & Hlt1 & Hout1 & Hfs1).
      unfold bind, gets, Batch.lift, Api.close, modify. simpl.
      unfold batch_untouched, handles_wf. simpl. split; [|split; [done|split; [|done]]].
      + intros h' p [_ Hp]%lookup_delete_Some. by apply (Hwf1 h' p).
      + intros p. by rewrite lookup_delete_eq. }
  specialize (Hloop f0 Hinv0). destruct (Batch.guarded_loop _ _ _ _ f0) as [r f1].
  simpl in *. destruct Hloop as (_ & _ & _ & Hfs). by apply Hfs.
Qed.

Lemma batch_touches_outputs_only_witness :
  fs (snd (Batch.repackage_multi_to_multi "out" "batch" 10 scenario_batch_list
             (init_state scenario_batch_files))) !! "in/a.fast5"
  = fs (init_state scenario_batch_files) !! "in/a.fast5".
Proof.
  apply (batch_touches_outputs_only "out" "batch" 10 scenario_batch_list
           (init_state scenario_batch_files) "in/a.fast5").
  - intros h p. simpl. by rewrite lookup_empty.
  - intros n Heq. pose proof (scenario_outputs_fresh n) as Hfresh.
    rewrite <- Heq in Hfresh. vm_compute in Hfresh. discriminate.
Defined.

(** ** Batch mode: the outputs, whatever fails *)

Section BatchShape.
Variables (output_folder filename_base : string) (B : Z) (files : gmap string file).

Local Abbreviation out := (Batch.output_path output_folder filename_base).
Local Abbreviation read_step := (Batch.read_step output_folder filename_base B).
Local Abbreviation file_step := (Batch.file_step output_folder filename_base B).
Local Abbreviation rollover := (Batch.rollover output_folder filename_base).
Local Abbreviation shape := (batch_shape output_folder filename_base B files).

Lemma rollover_shape h k f :
  shape f -> counted B k f ->
  0 < B -> B <= Batch.read_num (Batch.vars f) ->
  open_beside h f ->
  exists f1, rollover f = (Ok tt, f1) /\ shape f1 /\ room B k f1 /\ open_beside h f1.
Proof.
  intros (Hb & Hr & Hwf & Hout & Hfull & (m & Hm & Hmr) & Hlater & Hother) Hk HB HBr
         [[ph Hh] Hho].
  unfold counted in Hk. rewrite (proj2 (Z.ltb_lt 0 B) HB) in Hk. destruct Hk as (Hk & HrB & _).
  eexists. split; [apply rollover_eval; apply Hlater; lia|].
  assert (h ≠ next_handle (Batch.world f)) as Hne2.
  { intros ->. apply Hwf in Hh. lia. }
  split; [|split].
  - unfold batch_shape, handles_wf. simpl. split; [lia|]. split; [lia|].
    split; [|split; [|split; [|split; [|split]]]].
    + intros h' p [[<- _]|[_ Hp]]%lookup_insert_Some; [lia|].
      apply lookup_delete_Some in Hp as [_ Hp]. apply Hwf in Hp. lia.
    + apply lookup_insert_eq.
    + intros n Hn. rewrite reads_at_insert_ne by (intros ?%(inj out); lia).
      destruct (decide (n = Batch.batch_num (Batch.vars f))) as [->|Hne].
      * exists m. split; [done|]. lia.
      * apply Hfull. lia.
    + exists 0%nat. rewrite reads_at_insert. by rewrite map_size_empty.
    + intros n Hn. rewrite lookup_insert_ne by (intros ?%(inj out); lia).
      apply Hlater. lia.
    + intros p Hp. rewrite lookup_insert_ne by (intros ?; by eapply Hp). by apply Hother.
  - unfold room. simpl. rewrite (proj2 (Z.ltb_lt 0 B) HB). lia.
  - split; simpl; [|done].
    rewrite lookup_insert_ne by done. rewrite lookup_delete_ne by done. by eauto.
Qed.

Lemma copy_block_eval multi_f5 read_id f :
  try_except
    (o <- gets (fun f => Batch.output_multi_f5 (Batch.vars f)) ;;
     Batch.lift (copy_read multi_f5 read_id o))
    (fun e =>
       path <- gets (fun f => Batch.output_file (Batch.vars f)) ;;
       Batch.lift (logger_error (FailedWriteMultiRead e path))) f
  = (Ok tt,
     Batch.Frame
       (match copy_read multi_f5 read_id (Batch.output_multi_f5 (Batch.vars f)) (Batch.world f) with
        | (Ok _, w) => w
        | (Raise e, w) =>
            snd (logger_error (FailedWriteMultiRead e (Batch.output_file (Batch.vars f))) w)
        end)
       (Batch.vars f)).
Proof.
  unfold try_except, bind, gets, Batch.lift.
  by destruct (copy_read _ _ _ (Batch.world f)) as [[[]|e] w].
Qed.

(** One read, copied or not, takes one place in the current output. *)
Lemma read_step_shape h read_id k f :
  shape f -> counted B k f -> open_beside h f ->
  exists f', read_step h read_id f = (Ok tt, f')
             /\ shape f' /\ counted B (k + 1) f' /\ open_beside h f'.
Proof.
  intros Hs Hk Hh.
  assert (exists f1, (if (B <=? Batch.read_num (Batch.vars f)) && (0 <? B)
                      then rollover else ret tt) f = (Ok tt, f1)
                     /\ shape f1 /\ room B k f1 /\ open_beside h f1)
    as (f1 & Hf1 & Hs1 & Hroom & Hh1).
  { destruct ((B <=? Batch.read_num (Batch.vars f)) && (0 <? B)) eqn:Hc.
    - apply andb_true_iff in Hc as [H1%Z.leb_le H2%Z.ltb_lt].
      by eapply rollover_shape.
    - exists f. split; [done|]. split; [done|]. split; [|done].
      unfold counted, room in *. destruct (0 <? B) eqn:HB; [|done].
      rewrite andb_true_r in Hc. apply Z.leb_gt in Hc. lia. }
  unfold Batch.read_step. unfold bind at 1. unfold gets at 1.
  unfold bind at 1. rewrite Hf1.
  unfold bind at 1. rewrite copy_block_eval. cbv beta iota.
  unfold bind, gets, Batch.assign, modify. cbv beta iota.
  eexists. split; [reflexivity|]. simpl Batch.world. simpl Batch.vars.
  destruct Hs1 as (Hb & Hr & Hwf & Hout & Hfull & (m & Hm & Hmr) & Hlater & Hother).
  destruct Hh1 as [Hopen Hne].
  set (b := Batch.batch_num (Batch.vars f1)) in *.
  set (r := Batch.read_num (Batch.vars f1)) in *.
  assert (counted B (k + 1)
            (Batch.Frame (Batch.world f1) (Batch.set_read_num (r + 1) (Batch.vars f1)))) as Hk1.
  { unfold counted, room in *. simpl. fold b. fold r in Hroom. destruct (0 <? B); lia. }
  destruct (copy_read_cases h read_id (Batch.output_multi_f5 (Batch.vars f1)) (Batch.world f1))
    as [(ps & pd & cs & cd & run & g & Hhs & Hhd & Hps & Hrs & Hpd & Hrd & ->)|[e ->]].
  - rewrite Hout in Hhd. injection Hhd as <-.
    assert (m = size cd) as ->.
    { unfold reads_at in Hm. rewrite Hpd in Hm. by injection Hm. }
    split; [|split; [exact Hk1 | split; [exact Hopen | exact Hne]]].
    unfold batch_shape. simpl. fold b.
    split; [done|]. split; [lia|]. split; [done|]. split; [done|].
    split; [|split; [|split]].
    + intros n Hn. rewrite reads_at_insert_ne by (intros ?%(inj out); lia). by apply Hfull.
    + eexists. rewrite reads_at_insert. split; [done|].
      rewrite map_size_insert_None by done. lia.
    + intros n Hn. rewrite lookup_insert_ne by (intros ?%(inj out); lia). by apply Hlater.
    + intros p Hp. rewrite lookup_insert_ne by (intros ?; by eapply Hp). by apply Hother.
  - split; [|split; [exact Hk1 | split; [exact Hopen | exact Hne]]].
    unfold batch_shape. simpl. fold b.
    split; [done|]. split; [lia|]. split; [done|]. split; [done|].
    split; [done|]. split; [|done]. exists m. split; [done | lia].
Qed.

Lemma read_loop_shape h read_ids :
  forall k f,
    shape f -> counted B k f -> open_beside h f ->
    exists f', for_each read_ids (read_step h) f = (Ok tt, f')
               /\ shape f' /\ counted B (k + Z.of_nat (length read_ids)) f'
               /\ open_beside h f'.
Proof.
  induction read_ids as [|x l IH]; intros k f Hs Hk Hh.
  - exists f. simpl. by rewrite Z.add_0_r.
  - destruct (read_step_shape h x k f Hs Hk Hh) as (f1 & Hf1 & Hs1 & Hk1 & Hh1).
    destruct (IH (k + 1) f1 Hs1 Hk1 Hh1) as (f2 & Hf2 & Hs2 & Hk2 & Hh2).
    exists f2. simpl for_each. unfold bind. rewrite Hf1. split; [done|].
    split; [done|]. split; [|done].
    replace (k + Z.of_nat (length (x :: l))) with (k + 1 + Z.of_nat (length l));
      [done | simpl; lia].
Qed.

(** One input: it does not open and nothing happens, or its reads are
    all counted. *)
Lemma file_step_shape input_file k f :
  shape f -> counted B k f ->
  (is_container (fs (Batch.world f) !! input_file) = false
   /\ exists e, file_step input_file f = (Raise e, f))
  \/ (exists c f',
        fs (Batch.world f) !! input_file = Some (Container c)
        /\ file_step input_file f = (Ok tt, f')
        /\ shape f' /\ counted B (k + Z.of_nat (size c)) f').
Proof.
  intros Hs Hk.
  pose proof Hs as (Hb & Hr & Hwf & Hout & Hfull & Hcur & Hlater & Hother).
  unfold Batch.file_step, bind, Batch.lift, try_finally.
  rewrite open_eval. cbv zeta.
  destruct (fs (Batch.world f) !! input_file) as [[|c]|] eqn:Hc.
  1,3: left; split; [done|]; exists IOError; by destruct f.
  right. exists c. cbv beta iota. simpl Batch.world. simpl Batch.vars.
  set (h := next_handle (Batch.world f)) in *.
  set (w1 := State _ (<[h := input_file]> _) _ _).
  rewrite get_read_ids_eval.
  assert (lookup_container w1 h = Some c) as ->.
  { apply lookup_container_Some. exists input_file. simpl. by rewrite lookup_insert_eq. }
  cbv beta iota.
  set (f1 := Batch.Frame w1 (Batch.vars f)).
  assert (Batch.output_multi_f5 (Batch.vars f) ≠ h) as Hoh.
  { intros Heq. apply Hwf in Hout. unfold h in Heq. lia. }
  assert (shape f1) as Hs1.
  { unfold batch_shape, handles_wf. simpl.
    split; [done|]. split; [done|]. split; [|split; [|done]].
    - intros h' p [[Heq _]|[_ Hp]]%lookup_insert_Some; [rewrite <- Heq; unfold h; lia|].
      apply Hwf in Hp. lia.
    - by rewrite lookup_insert_ne. }
  assert (open_beside h f1) as Hh1.
  { split; [|done]. simpl. rewrite lookup_insert_eq. by eauto. }
  destruct (read_loop_shape h (map_to_list c).*1 k f1 Hs1 Hk Hh1)
    as (f2 & Hf2 & Hs2 & Hk2 & [Hopen2 Hne2]).
  rewrite Hf2. simpl. eexists. split; [done|]. split; [reflexivity|].
  rewrite length_fmap, length_map_to_list in Hk2. split; [|exact Hk2].
  destruct Hs2 as (Hb2 & Hr2 & Hwf2 & Hout2 & Hrest2).
  unfold batch_shape, handles_wf. simpl.
  split; [done|]. split; [done|]. split; [|split; [|done]].
  - intros h' p [_ Hp]%lookup_delete_Some. by apply (Hwf2 h' p).
  - by rewrite lookup_delete_ne.
Qed.

(** The loop over the inputs keeps the shape and the count, however it
    ends. *)
Lemma file_loop_shape file_list :
  forall k f,
    shape f -> counted B k f ->
    exists k', shape (snd (for_each file_list file_step f))
               /\ counted B k' (snd (for_each file_list file_step f)).
Proof.
  induction file_list as [|p l IH]; intros k f Hs Hk.
  - exists k. done.
  - simpl. unfold bind.
    destruct (file_step_shape p k f Hs Hk)
      as [[_ [e ->]]|(c & f1 & _ & -> & Hs1 & Hk1)].
    + exists k. done.
    + apply (IH _ f1 Hs1 Hk1).
Qed.


(** When every input is a container of [files] and no output exists in
    [files], every input opens and the loop returns. *)
Lemma file_loop_shape_exact file_list :
  (forall n, files !! out n = None) ->
  Forall (fun p => is_container (files !! p) = true) file_list ->
  forall k f,
    shape f -> counted B k f ->
    exists f', for_each file_list file_step f = (Ok tt, f')
               /\ shape f' /\ counted B (k + total_reads files file_list) f'.
Proof.
  intros Hfresh. induction 1 as [|p l Hp Hl IH]; intros k f Hs Hk.
  - exists f. simpl. by rewrite Z.add_0_r.
  - assert (fs (Batch.world f) !! p = files !! p) as Hsame.
    { destruct Hs as (_ & _ & _ & _ & _ & _ & _ & Hother). apply Hother.
      intros n ->. by rewrite Hfresh in Hp. }
    destruct (file_step_shape p k f Hs Hk)
      as [[Hno _]|(c & f1 & Hc & Hf1 & Hs1 & Hk1)].
    { by rewrite Hsame, Hp in Hno. }
    destruct (IH _ f1 Hs1 Hk1) as (f2 & Hf2 & Hs2 & Hk2).
    exists f2. simpl for_each. unfold bind. rewrite Hf1. split; [done|]. split; [done|].
    simpl. unfold reads_at. rewrite <- Hsame, Hc. simpl. by rewrite Z.add_assoc.
Qed.

End BatchShape.

(** A batch-mode run from a world in which no output of the run exists
    ends in the shape of the invariant, however it ends. *)
Lemma batch_run_shape output_folder filename_base B file_list s :
  handles_wf s ->
  (forall n, fs s !! Batch.output_path output_folder filename_base n = None) ->
  exists f k,
    fs (snd (Batch.repackage_multi_to_multi output_folder filename_base B file_list s))
    = fs (Batch.world f)
    /\ batch_shape output_folder filename_base B (fs s) f /\ counted B k f.
Proof.
  intros Hwf Hfresh. unfold Batch.repackage_multi_to_multi.
  rewrite open_eval, Hfresh. cbv beta iota zeta.
  match goal with |- context [Batch.guarded_loop _ _ _ _ ?f] => set (f0 := f) end.
  assert (batch_shape output_folder filename_base B (fs s) f0) as Hs0.
  { unfold batch_shape, handles_wf. simpl.
    split; [done|]. split; [done|]. split; [|split; [|split; [|split; [|split]]]].
    - intros h p [[<- _]|[_ Hp]]%lookup_insert_Some; [lia|]. apply Hwf in Hp. lia.
    - apply lookup_insert_eq.
    - intros n Hn. lia.
    - exists 0%nat. by rewrite reads_at_insert, map_size_empty.
    - intros n Hn.
      rewrite lookup_insert_ne by (intros ?%(inj (Batch.output_path _ _)); lia).
      apply Hfresh.
    - intros p Hp. apply lookup_insert_ne. intros Heq. by apply (Hp _ (eq_sym Heq)). }
  assert (counted B 0 f0) as Hk0.
  { unfold counted. simpl. destruct (0 <? B) eqn:HB; [apply Z.ltb_lt in HB; lia | done]. }
  destruct (file_loop_shape output_folder filename_base B (fs s) file_list 0 f0 Hs0 Hk0)
    as (k & Hs1 & Hk1).
  unfold Batch.guarded_loop, try_finally, try_except.
  destruct (for_each file_list _ f0) as [[[]|e] f1]; simpl in *;
    exists f1, k; done.
Qed.

(** X12.  The outputs of a batch-mode run are numbered from 0 without a
    gap: from a folder that holds none of them, whatever the inputs are
    and whatever fails, the outputs that exist after the run are those of
    the indices 0 to some last index, each a container; without a bound
    ([batch_size <= 0]) the last index is 0. *)
Theorem batch_outputs_numbered output_folder filename_base B file_list s :
  handles_wf s ->
  (forall n, fs s !! Batch.output_path output_folder filename_base n = None) ->
  let s' := snd (Batch.repackage_multi_to_multi output_folder filename_base B file_list s) in
  exists last,
    0 <= last
    /\ (forall n, 0 <= n <= last ->
          is_container (fs s' !! Batch.output_path output_folder filename_base n) = true)
    /\ (forall n, ~ (0 <= n <= last) ->
          fs s' !! Batch.output_path output_folder filename_base n = None)
    /\ (B <= 0 -> last = 0).
Proof.
  intros Hwf Hfresh s'.
  destruct (batch_run_shape output_folder filename_base B file_list s Hwf Hfresh)
    as (f & k & Hfs & (Hb & Hr & _ & _ & Hfull & (m & Hm & _) & Hlater & _) & Hk).
  subst s'. rewrite Hfs. exists (Batch.batch_num (Batch.vars f)).
  split; [done|]. split; [|split; [done|]].
  - intros n Hn.
    assert (is_Some (reads_at (fs (Batch.world f))
                       (Batch.output_path output_folder filename_base n))) as [x Hx].
    { destruct (decide (n = Batch.batch_num (Batch.vars f))) as [->|Hne]; [by eauto|].
      destruct (Hfull n) as (m' & Hm' & _); [lia | by eauto]. }
    unfold reads_at in Hx. by destruct (fs (Batch.world f) !! _) as [[|c]|].
  - intros HB. unfold counted in Hk. destruct (0 <? B) eqn:H0; [apply Z.ltb_lt in H0; lia|].
    by destruct Hk.
Qed.

Lemma batch_outputs_numbered_witness :
  let s' := snd (Batch.repackage_multi_to_multi "out" "batch" 2 ["in/a.fast5"]
                   (init_state damaged_files)) in
  exists last,
    0 <= last
    /\ (forall n, 0 <= n <= last ->
          is_container (fs s' !! Batch.output_path "out" "batch" n) = true)
    /\ (forall n, ~ (0 <= n <= last) ->
          fs s' !! Batch.output_path "out" "batch" n = None)
    /\ (2 <= 0 -> last = 0).
Proof.
  apply (batch_outputs_numbered "out" "batch" 2 ["in/a.fast5"] (init_state damaged_files)).
  - intros h p. simpl. by rewrite lookup_empty.
  - intros n. simpl. unfold damaged_files. apply lookup_singleton_ne.
    intros Heq. pose proof (scenario_outputs_fresh n) as Hfresh.
    rewrite <- Heq in Hfresh. vm_compute in Hfresh. discriminate.
Defined.

(** X13.  With a bound [B > 0], no output of a batch-mode run holds more
    than [B] reads: from a folder that holds none of the outputs, whatever
    the inputs are and whatever fails. *)
Theorem batch_outputs_bounded output_folder filename_base B file_list s :
  handles_wf s ->
  (forall n, fs s !! Batch.output_path output_folder filename_base n = None) ->
  0 < B ->
  let s' := snd (Batch.repackage_multi_to_multi output_folder filename_base B file_list s) in
  forall n m,
    reads_at (fs s') (Batch.output_path output_folder filename_base n) = Some m ->
    Z.of_nat m <= B.
Proof.
  intros Hwf Hfresh HB s' n m. subst s'.
  destruct (batch_run_shape output_folder filename_base B file_list s Hwf Hfresh)
    as (f & k & Hfs & (Hb & Hr & _ & _ & Hfull & (m' & Hm' & Hle) & Hlater & _) & Hk).
  rewrite Hfs. intros Hm.
  unfold counted in Hk. rewrite (proj2 (Z.ltb_lt 0 B) HB) in Hk. destruct Hk as (_ & HrB & _).
  destruct (decide (0 <= n < Batch.batch_num (Batch.vars f))) as [Hn|Hn].
  - destruct (Hfull n Hn) as (m2 & Hm2 & Hle2). rewrite Hm in Hm2. injection Hm2 as ->.
    by apply Hle2.
  - destruct (decide (n = Batch.batch_num (Batch.vars f))) as [->|Hne].
    + rewrite Hm in Hm'. injection Hm' as ->. lia.
    + unfold reads_at in Hm. rewrite Hlater in Hm; [done | lia].
Qed.

Lemma batch_outputs_bounded_witness :
  let s' := snd (Batch.repackage_multi_to_multi "out" "batch" 2 ["in/a.fast5"]
                   (init_state damaged_files)) in
  exists m, reads_at (fs s') (Batch.output_path "out" "batch" 0) = Some m /\ Z.of_nat m <= 2.
Proof.
  intros s'.
  assert (handles_wf (init_state damaged_files)) as Hwf
    by (intros h p; simpl; by rewrite lookup_empty).
  assert (forall n, fs (init_state damaged_files) !! Batch.output_path "out" "batch" n = None)
    as Hfresh.
  { intros n. simpl. unfold damaged_files. apply lookup_singleton_ne.
    intros Heq. pose proof (scenario_outputs_fresh n) as Hf.
    rewrite <- Heq in Hf. vm_compute in Hf. discriminate. }
  eexists. split; [vm_compute; reflexivity|].
  eapply (batch_outputs_bounded "out" "batch" 2 ["in/a.fast5"] (init_state damaged_files)
            Hwf Hfresh ltac:(lia) 0).
  vm_compute. reflexivity.
Defined.

(** X14.  A read whose copy fails takes its place all the same.  From a
    folder that holds none of the outputs and over inputs that are
    containers, a batch-mode run returns whatever reads fail, and the
    outputs it leaves are as many as the reads it went through ask for,
    copied or not: [batches B T] of them, the indices below that
    number. *)
Theorem batch_failed_reads_counted output_folder filename_base B file_list s :
  handles_wf s ->
  (forall n, fs s !! Batch.output_path output_folder filename_base n = None) ->
  Forall (fun p => is_container (fs s !! p) = true) file_list ->
  let '(r, s') := Batch.repackage_multi_to_multi output_folder filename_base B file_list s in
  r = Ok tt
  /\ forall n, is_Some (fs s' !! Batch.output_path output_folder filename_base n)
               <-> 0 <= n < batches B (total_reads (fs s) file_list).
Proof.
  intros Hwf Hfresh Hin. unfold Batch.repackage_multi_to_multi.
  rewrite open_eval, Hfresh. cbv beta iota zeta.
  match goal with |- context [Batch.guarded_loop _ _ _ _ ?f] => set (f0 := f) end.
  assert (batch_shape output_folder filename_base B (fs s) f0) as Hs0.
  { unfold batch_shape, handles_wf. simpl.
    split; [done|]. split; [done|]. split; [|split; [|split; [|split; [|split]]]].
    - intros h p [[<- _]|[_ Hp]]%lookup_insert_Some; [lia|]. apply Hwf in Hp. lia.
    - apply lookup_insert_eq.
    - intros n Hn. lia.
    - exists 0%nat. by rewrite reads_at_insert, map_size_empty.
    - intros n Hn.
      rewrite lookup_insert_ne by (intros ?%(inj (Batch.output_path _ _)); lia).
      apply Hfresh.
    - intros p Hp. apply lookup_insert_ne. intros Heq. by apply (Hp _ (eq_sym Heq)). }
  assert (counted B 0 f0) as Hk0.
  { unfold counted. simpl. destruct (0 <? B) eqn:HB; [apply Z.ltb_lt in HB; lia | done]. }
  destruct (file_loop_shape_exact output_folder filename_base B (fs s) file_list
              Hfresh Hin 0 f0 Hs0 Hk0) as (f1 & Hf1 & Hs1 & Hk1).
  unfold Batch.guarded_loop, try_finally, try_except. rewrite Hf1.
  unfold bind, gets, Batch.lift, Api.close, modify. simpl.
  split; [done|]. rewrite Z.add_0_l in Hk1.
  destruct Hs1 as (Hb & Hr & _ & _ & Hfull & (m & Hm & _) & Hlater & _).
  destruct (batches_cursor B _ f1 Hb Hr Hk1) as [-> _].
  intros n. destruct (decide (0 <= n <= Batch.batch_num (Batch.vars f1))) as [Hn|Hn].
  - split; [lia|]. intros _.
    assert (is_Some (reads_at (fs (Batch.world f1))
                       (Batch.output_path output_folder filename_base n))) as [x Hx].
    { destruct (decide (n = Batch.batch_num (Batch.vars f1))) as [->|Hne]; [by eauto|].
      destruct (Hfull n) as (m' & Hm' & _); [lia | by eauto]. }
    unfold reads_at in Hx. by destruct (fs (Batch.world f1) !! _).
  - rewrite (Hlater n Hn). split; [by intros [? ?] | lia].
Qed.

Lemma batch_failed_reads_counted_witness :
  let '(r, s') := Batch.repackage_multi_to_multi "out" "batch" 2 ["in/a.fast5"]
                    (init_state damaged_files) in
  r = Ok tt
  /\ forall n, is_Some (fs s' !! Batch.output_path "out" "batch" n)
               <-> 0 <= n < batches 2 (total_reads (fs (init_state damaged_files))
                                         ["in/a.fast5"]).
Proof.
  apply (batch_failed_reads_counted "out" "batch" 2 ["in/a.fast5"] (init_state damaged_files)).
  - intros h p. simpl. by rewrite lookup_empty.
  - intros n. simpl. unfold damaged_files. apply lookup_singleton_ne.
    intros Heq. pose proof (scenario_outputs_fresh n) as Hfresh.
    rewrite <- Heq in Hfresh. vm_compute in Hfresh. discriminate.
  - repeat constructor.
Defined.

(** The damaged input, run: three reads, the second of which fails, in
    batches of two make two outputs, of one read each. *)
Example batch_damaged_read :
  let '(r, s') := Batch.repackage_multi_to_multi "out" "batch" 2 ["in/a.fast5"]
                    (init_state damaged_files) in
  r = Ok tt
  /\ reads_at (fs s') "out/batch_0.fast5" = Some 1%nat
  /\ reads_at (fs s') "out/batch_1.fast5" = Some 1%nat
  /\ log s' = [FailedWriteMultiRead KeyError "out/batch_0.fast5"].
Proof. vm_compute. done. Qed.

(** ** Both modes: no read id is made up *)

Lemma present_grows s s' path read_id :
  grows s s' -> present (fs s) path read_id -> present (fs s') path read_id.
Proof.
  intros (_ & Hcont & _) (c & Hc & [r Hr]).
  destruct (Hcont path c Hc) as (c' & Hc' & Hsub).
  exists c'. split; [done|]. exists r. by eapply lookup_weaken.
Qed.

Global Instance ids_from_elsewhere_refl : Reflexive ids_from_elsewhere.
Proof. intros s. split; [reflexivity|]. intros p x Hp. by left. Qed.

Global Instance ids_from_elsewhere_trans : Transitive ids_from_elsewhere.
Proof.
  intros s1 s2 s3 [Hg12 H12] [Hg23 H23]. split; [by etransitivity|].
  intros p x Hp.
  destruct (H23 p x Hp) as [Hp2|?]; [|by right].
  destruct (H12 p x Hp2) as [?|(q & Hq & Hx)]; [by left|].
  right. exists q. split; [done|]. by eapply present_grows.
Qed.





(** ** Batch mode loses no read *)

Section BatchLands.
Variables (output_folder filename_base : string) (B : Z) (files : gmap string file).

Local Abbreviation out := (Batch.output_path output_folder filename_base).
Local Abbreviation read_step := (Batch.read_step output_folder filename_base B).
Local Abbreviation file_step := (Batch.file_step output_folder filename_base B).
Local Abbreviation inv := (batch_inv output_folder filename_base B files).

Lemma landed_grows s s' p c read_id r :
  grows s s' -> fs s !! p = Some (Container c) -> c !! read_id = Some r ->
  exists c', fs s' !! p = Some (Container c') /\ c' !! read_id = Some r.
Proof.
  intros (_ & Hc & _) Hp Hr. apply Hc in Hp as (c' & Hp' & Hsub).
  exists c'. split; [done|]. by eapply lookup_weaken.
Qed.

(** Lines 96-113 for one read, when nothing is logged: the read is in the
    output that is current after the step, as the input has it. *)
Lemma read_step_lands src ps read_id k f f' c r :
  inv k f ->
  handles (Batch.world f) !! src = Some ps -> (forall n, ps ≠ out n) ->
  files !! ps = Some (Container c) -> c !! read_id = Some r ->
  read_step src read_id f = (Ok tt, f') -> log (Batch.world f') = [] ->
  exists n cp, fs (Batch.world f') !! out n = Some (Container cp) /\ cp !! read_id = Some r.
Proof.
  intros [Hw Hk] Hsrc Hps Hc Hr Hstep Hnil.
  assert (exists f1, (if (B <=? Batch.read_num (Batch.vars f)) && (0 <? B)
                      then Batch.rollover output_folder filename_base else ret tt) f
                     = (Ok tt, f1)
                     /\ batch_world output_folder filename_base B files f1
                     /\ handles (Batch.world f1) !! src = Some ps) as (f1 & Hf1 & Hw1 & Hsrc1).
  { destruct ((B <=? Batch.read_num (Batch.vars f)) && (0 <? B)) eqn:Hb.
    - apply andb_true_iff in Hb as [H1%Z.leb_le H2%Z.ltb_lt].
      destruct (rollover_inv output_folder filename_base B files src ps k f Hw Hk H2 H1 Hsrc Hps)
        as (f1 & ? & ? & _ & ?).
      by exists f1.
    - by exists f. }
  unfold Batch.read_step in Hstep. unfold bind at 1 in Hstep. unfold gets at 1 in Hstep.
  unfold bind at 1 in Hstep. rewrite Hf1 in Hstep.
  unfold bind at 1 in Hstep.
  pose proof (copy_block_world src read_id f1) as Hblock. simpl in Hblock.
  pose proof (copy_block_vars src read_id f1) as [Hok _]. simpl in Hok.
  destruct (try_except _ _ f1) as [rc f2]. simpl in Hblock, Hok. subst rc.
  unfold bind, gets, Batch.assign, modify in Hstep. injection Hstep as <-.
  simpl in Hnil. destruct (Hblock Hnil) as [Hv Hcopy]. simpl.
  destruct Hw1 as (_ & _ & _ & Hout1 & _ & _ & _ & _ & Hother1).
  apply copy_read_ok in Hcopy
    as (ps' & pd & cs & cd & run & g & Hhs & Hhd & Hcs & Hrs & Hpd & Hrd & ->).
  rewrite Hsrc1 in Hhs. injection Hhs as <-.
  rewrite Hout1 in Hhd. injection Hhd as <-.
  rewrite (Hother1 ps Hps), Hc in Hcs. injection Hcs as <-.
  rewrite Hr in Hrs. injection Hrs as ->.
  eexists _, _. simpl. split; [apply lookup_insert_eq | apply lookup_insert_eq].
Qed.

Hypothesis Hfresh : forall n, files !! out n = None.

Lemma read_loop_log_nil src l f f' :
  for_each l (read_step src) f = (Ok tt, f') -> log (Batch.world f') = [] ->
  log (Batch.world f) = [].
Proof.
  intros Hloop Hnil.
  pose proof (preserves_for_each (on_world grows) l (read_step src)
                (batch_read_step_respects grows grows_api _ _ _ src) f) as Hg.
  rewrite Hloop in Hg. by eapply log_nil_grows.
Qed.

Lemma file_loop_log_nil l f f' :
  for_each l file_step f = (Ok tt, f') -> log (Batch.world f') = [] ->
  log (Batch.world f) = [].
Proof.
  intros Hloop Hnil.
  pose proof (preserves_for_each (on_world grows) l file_step
                (file_step_respects grows grows_api _ _ _) f) as Hg.
  rewrite Hloop in Hg. by eapply log_nil_grows.
Qed.

(** Lines 93-113 for one input, when nothing is logged: each of its reads
    is in an output, as the input has it. *)
Lemma file_step_lands input_file k f f' c read_id r :
  inv k f -> files !! input_file = Some (Container c) -> c !! read_id = Some r ->
  file_step input_file f = (Ok tt, f') -> log (Batch.world f') = [] ->
  exists n cp, fs (Batch.world f') !! out n = Some (Container cp) /\ cp !! read_id = Some r.
Proof.
  intros [Hw Hk] Hc Hr Hstep Hnil.
  assert (is_Some (files !! input_file)) as Hin by (by rewrite Hc).
  pose proof (input_not_output output_folder filename_base files Hfresh input_file Hin) as Hne.
  pose proof Hw as (Hb & Hrn & Hwf & Hout & Hlog & Hfull & Hcur & Hlater & Hother).
  unfold Batch.file_step, bind, Batch.lift, try_finally in Hstep.
  rewrite open_eval, (Hother input_file Hne) in Hstep. cbv zeta in Hstep.
  rewrite Hc in Hstep.
  cbv beta iota in Hstep. simpl Batch.world in Hstep. simpl Batch.vars in Hstep.
  set (h := next_handle (Batch.world f)) in *.
  set (w1 := State _ (<[h := input_file]> _) _ _) in Hstep.
  rewrite get_read_ids_eval in Hstep.
  assert (lookup_container w1 h = Some c) as Hlc.
  { apply lookup_container_Some. exists input_file. simpl. rewrite lookup_insert_eq.
    by rewrite (Hother input_file Hne). }
  rewrite Hlc in Hstep. cbv beta iota in Hstep.
  set (f1 := Batch.Frame w1 (Batch.vars f)) in Hstep.
  assert (inv k f1) as Hinv1.
  { split; [|done]. unfold batch_world, handles_wf. simpl.
    split; [done|]. split; [done|]. split; [|split; [|done]].
    - intros h' p [[Heq _]|[_ Hp]]%lookup_insert_Some; [rewrite <- Heq; unfold h; lia|].
      apply Hwf in Hp. lia.
    - rewrite lookup_insert_ne; [done|]. intros Heq. apply Hwf in Hout. unfold h in Heq. lia. }
  assert (handles (Batch.world f1) !! h = Some input_file) as Hsrc1
    by (simpl; apply lookup_insert_eq).
  destruct (for_each (map_to_list c).*1 (read_step h) f1) as [r2 f2] eqn:Hloop.
  simpl in Hstep. injection Hstep as -> <-. simpl in Hnil. simpl.
  assert (read_id ∈ (map_to_list c).*1) as Hel.
  { apply list_elem_of_fmap. exists (read_id, r). split; [done|]. by apply elem_of_map_to_list. }
  apply list_elem_of_split in Hel as (l1 & l2 & Hl).
  rewrite Hl, for_each_app in Hloop.
  destruct (for_each l1 (read_step h) f1) as [[[]|e] g1] eqn:Hl1; [|done].
  simpl in Hloop. unfold bind in Hloop.
  destruct (read_step h read_id g1) as [[[]|e] g2] eqn:Hs; [|done].
  pose proof (read_loop_log_nil h l2 g2 f2 Hloop Hnil) as Hnil2.
  assert (log (Batch.world g1) = []) as Hnil1.
  { pose proof (batch_read_step_respects grows grows_api output_folder filename_base B h
                  read_id g1) as Hg.
    rewrite Hs in Hg. by eapply log_nil_grows. }
  destruct (read_loop_inv output_folder filename_base B files h input_file l1 Hne k f1 g1
              Hinv1 Hsrc1 Hl1 Hnil1) as [Hinvg Hsrcg].
  destruct (read_step_lands h input_file read_id _ g1 g2 c r Hinvg Hsrcg Hne Hc Hr Hs Hnil2)
    as (n & cp & Hp & Hrp).
  pose proof (preserves_for_each (on_world grows) l2 (read_step h)
                (batch_read_step_respects grows grows_api _ _ _ h) g2) as Hg.
  rewrite Hloop in Hg.
  destruct (landed_grows _ _ _ _ _ _ Hg Hp Hrp) as (c' & ? & ?). by exists n, c'.
Qed.

Lemma file_loop_lands file_list :
  Forall (fun p => is_Some (files !! p)) file_list ->
  forall k f f' p c read_id r,
    inv k f -> p ∈ file_list ->
    files !! p = Some (Container c) -> c !! read_id = Some r ->
    for_each file_list file_step f = (Ok tt, f') -> log (Batch.world f') = [] ->
    exists n cp, fs (Batch.world f') !! out n = Some (Container cp) /\ cp !! read_id = Some r.
Proof.
  intros Hin k f f' p c read_id r Hinv Hel Hc Hr Hloop Hnil.
  apply list_elem_of_split in Hel as (l1 & l2 & ->).
  apply Forall_app in Hin as [Hin1 _].
  rewrite for_each_app in Hloop.
  destruct (for_each l1 file_step f) as [[[]|e] g1] eqn:Hl1; [|done].
  simpl in Hloop. unfold bind in Hloop.
  destruct (file_step p g1) as [[[]|e] g2] eqn:Hs; [|done].
  pose proof (file_loop_log_nil l2 g2 f' Hloop Hnil) as Hnil2.
  assert (log (Batch.world g1) = []) as Hnil1.
  { pose proof (file_step_respects grows grows_api output_folder filename_base B p g1) as Hg.
    rewrite Hs in Hg. by eapply log_nil_grows. }
  pose proof (file_loop_inv output_folder filename_base B files Hfresh l1 Hin1 k f g1
                Hinv Hl1 Hnil1) as Hinvg.
  destruct (file_step_lands p _ g1 g2 c read_id r Hinvg Hc Hr Hs Hnil2) as (n & cp & Hp & Hrp).
  pose proof (preserves_for_each (on_world grows) l2 file_step
                (file_step_respects grows grows_api _ _ _) g2) as Hg.
  rewrite Hloop in Hg.
  destruct (landed_grows _ _ _ _ _ _ Hg Hp Hrp) as (c' & ? & ?). by exists n, c'.
Qed.

End BatchLands.

(** X16.  Batch mode loses no read.  In a run from files in which no
    output of the run exists yet and every listed input is a file, that
    returns and logs no failure, every read of every listed container is
    in one of the numbered outputs afterwards, under its id and with the
    record the input has for it. *)
Theorem batch_keeps_every_read output_folder filename_base B files file_list s'
    p c read_id r :
  (forall n, files !! Batch.output_path output_folder filename_base n = None) ->
  Forall (fun p => is_Some (files !! p)) file_list ->
  Batch.repackage_multi_to_multi output_folder filename_base B file_list (init_state files)
  = (Ok tt, s') ->
  log s' = [] ->
  p ∈ file_list -> files !! p = Some (Container c) -> c !! read_id = Some r ->
  exists n cp,
    fs s' !! Batch.output_path output_folder filename_base n = Some (Container cp)
    /\ cp !! read_id = Some r.
Proof.
  intros Hfresh Hin Hrun Hnil Hel Hc Hr.
  unfold Batch.repackage_multi_to_multi in Hrun. rewrite open_eval in Hrun.
  simpl in Hrun. rewrite Hfresh in Hrun.
  set (f0 := Batch.Frame _ _) in Hrun.
  assert (batch_inv output_folder filename_base B files 0 f0) as Hinv0.
  { split.
    - unfold batch_world, handles_wf. simpl.
      split; [done|]. split; [done|]. split; [|split; [|split; [done|]]].
      + intros h q [[<- _]|[_ Hq]]%lookup_insert_Some; [lia | done].
      + apply lookup_insert_eq.
      + split; [intros; lia|].
        split; [unfold reads_at; by rewrite lookup_insert_eq, map_size_empty|].
        split.
        * intros n Hn.
          rewrite lookup_insert_ne by (intros ?%(inj (Batch.output_path _ _)); lia).
          apply Hfresh.
        * intros q Hq. apply lookup_insert_ne. intros ?. by eapply Hq.
    - unfold counted. simpl. destruct (0 <? B) eqn:HB; [apply Z.ltb_lt in HB; lia | done]. }
  unfold Batch.guarded_loop, try_finally, try_except in Hrun.
  destruct (for_each file_list (Batch.file_step output_folder filename_base B) f0)
    as [[[]|e] f1] eqn:Hloop.
  2:{ simpl in Hrun. discriminate. }
  unfold bind, gets, Batch.lift, Api.close, modify in Hrun. simpl in Hrun.
  injection Hrun as <-. simpl in Hnil. simpl.
  by eapply file_loop_lands.
Qed.

Lemma batch_keeps_every_read_witness :
  let s' := snd (Batch.repackage_multi_to_multi "out" "batch" 10 scenario_batch_list
                   (init_state scenario_batch_files)) in
  exists n cp,
    fs s' !! Batch.output_path "out" "batch" n = Some (Container cp)
    /\ cp !! "b3" = example_container "b" 5 !! "b3".
Proof.
  apply (batch_keeps_every_read "out" "batch" 10 scenario_batch_files scenario_batch_list _
           "in/b.fast5" (example_container "b" 5) "b3" _ scenario_outputs_fresh).
  - repeat constructor; vm_compute; by eauto.
  - vm_compute. reflexivity.
  - vm_compute. reflexivity.
  - apply (bool_decide_unpack _). vm_compute. exact I.
  - vm_compute. reflexivity.
  - vm_compute. reflexivity.
Defined.
